(** * space3: the 3x3 matrix engine ([src/Matrix3.ts])

    A shallow embedding of the [Matrix3] class.  A [Matrix3] is a
    [Float64Array] of length 9 living in the JavaScript heap; every "verb"
    method mutates the receiver in place and returns it, every [<verb>c]
    method works on a fresh clone.  The embedding keeps that shape:

    - numbers are an interface [Number] with two instances, IEEE binary64
      (the program as it runs, on Rocq's primitive floats) and the canonical
      rationals [Qc] (exact arithmetic, for the algebraic identities);
    - objects are buffers in a heap, addressed by location, so that aliasing
      ([A.prod(A)]), in-place mutation and freshness of clones are visible;
    - a method is a computation in the heap monad [M]. *)

From Stdlib Require Import ZArith Floats QArith Qcanon Field Lia Bool.
From stdpp Require Import base list option.

(** ** Numbers *)

(** The arithmetic the source uses on [number]: the literals [0] and [1],
    the four operations, unary minus, [<], [==], and what a typed array
    stores for [undefined] (NaN). *)
Class Number (T : Type) := {
  n0 : T;
  n1 : T;
  nadd : T -> T -> T;
  nsub : T -> T -> T;
  nmul : T -> T -> T;
  ndiv : T -> T -> T;
  nneg : T -> T;
  nlt : T -> T -> bool;
  neq : T -> T -> bool;
  nisnan : T -> bool;
  nnan : T
}.

Declare Scope num_scope.
Delimit Scope num_scope with num.
Infix "+" := nadd : num_scope.
Infix "-" := nsub : num_scope.
Infix "*" := nmul : num_scope.
Infix "/" := ndiv : num_scope.
Notation "- x" := (nneg x) : num_scope.
Infix "<?" := nlt : num_scope.
Infix "==" := neq (at level 70, no associativity) : num_scope.

(** JavaScript's [!x] on a number: true for [+0], [-0] and [NaN]. *)
Definition falsy {T} `{Number T} (x : T) : bool := (x == n0)%num || nisnan x.

(** The program's own arithmetic: IEEE 754 binary64, round to nearest even. *)
#[export] Instance float_Number : Number float := {|
  n0 := 0%float;
  n1 := 1%float;
  nadd := PrimFloat.add;
  nsub := PrimFloat.sub;
  nmul := PrimFloat.mul;
  ndiv := PrimFloat.div;
  nneg := PrimFloat.opp;
  nlt := PrimFloat.ltb;
  neq := PrimFloat.eqb;
  nisnan := PrimFloat.is_nan;
  nnan := nan
|}.

(** Exact arithmetic on canonical rationals.  It has no NaN: [nisnan] is
    constantly false and [nnan] is a placeholder that no 9-entry matrix
    ever reads. *)
#[export] Instance Qc_Number : Number Qc := {|
  n0 := 0%Qc;
  n1 := 1%Qc;
  nadd := Qcplus;
  nsub := Qcminus;
  nmul := Qcmult;
  ndiv := Qcdiv;
  nneg := Qcopp;
  nlt := fun x y => negb (Qle_bool y x);
  neq := Qc_eq_bool;
  nisnan := fun _ => false;
  nnan := 0%Qc
|}.

(** Arithmetic without rounding: the operations form a field, [==] is
    equality and nothing is NaN. *)
Class ExactNumber (T : Type) `{Number T} : Prop := {
  exact_field : field_theory n0 n1 nadd nmul nsub nneg ndiv (ndiv n1) eq;
  exact_eq : forall x y : T, (x == y)%num = true <-> x = y;
  exact_no_nan : forall x : T, nisnan x = false
}.

(** Multiplication of numbers commutes (it does in binary64 too). *)
Class MulComm (T : Type) `{Number T} : Prop :=
  mul_comm : forall x y : T, (x * y)%num = (y * x)%num.

(** What [Matrix3.ts] imports from [./Algebra], which is not part of the
    sources at hand: the tolerance [epsilon2] and the magnitude [mag] of an
    indexable container, taken as parameters. *)
Class Algebra (T : Type) := {
  epsilon2 : T;
  mag : list T -> T
}.

(** ** The heap and the monad of methods *)

Abbreviation loc := nat (only parsing).

(** A [Float64Array]: its elements in index order. *)
Abbreviation Float64Array T := (list T) (only parsing).

(** Objects in allocation order; a location is an index. *)
Abbreviation heap T := (list (Float64Array T)) (only parsing).

(** A computation reads and writes the heap and either returns a value or
    throws ([None]). *)
Definition M (T A : Type) : Type := heap T -> option (A * heap T).

#[export] Instance M_ret {T} : MRet (M T) := fun A x h => Some (x, h).
#[export] Instance M_bind {T} : MBind (M T) := fun A B f c h =>
  match c h with
  | Some (x, h') => f x h'
  | None => None
  end.

(** The value a computation returns from heap [h]. *)
Definition result {T A} (c : M T A) (h : heap T) : option A := fst <$> c h.

Section Primitives.
Context {T : Type} `{Number T}.

(** A thrown [TypeError]. *)
Definition throw {A} : M T A := fun _ => None.

(** Using a value that may be [undefined] as an object. *)
Definition deref (r : option loc) : M T loc :=
  match r with
  | Some a => mret a
  | None => throw
  end.

(** [new Float64Array(n)]: a fresh zero-filled buffer. *)
Definition new_Float64Array (n : nat) : M T loc :=
  fun h => Some (length h, h ++ [replicate n n0]).

(** [b[i]] read as a number: out of range it is [undefined], which is NaN
    in arithmetic and in a typed array. *)
Definition elem (b : list T) (i : nat) : T := default nnan (b !! i).

(** [a[i]] on the object at [a]. *)
Definition load (a : loc) (i : nat) : M T T :=
  fun h => b ← h !! a; Some (elem b i, h).

(** [a[i] = v]: a typed array ignores a write out of range. *)
Definition store (a : loc) (i : nat) (v : T) : M T unit :=
  fun h => b ← h !! a; Some (tt, <[a := <[i := v]> b]> h).

(** All elements of [a], as [[...a]] or an external reader sees them. *)
Definition contents (a : loc) : M T (list T) :=
  fun h => b ← h !! a; Some (b, h).

(** The compound assignments [a[i] += e], [-=], [*=], [/=]: the old value
    is read before [e] is evaluated. *)
Definition add_assign (a : loc) (i : nat) (e : M T T) : M T unit :=
  old ← load a i; v ← e; store a i (old + v)%num.
Definition sub_assign (a : loc) (i : nat) (e : M T T) : M T unit :=
  old ← load a i; v ← e; store a i (old - v)%num.
Definition mul_assign (a : loc) (i : nat) (e : M T T) : M T unit :=
  old ← load a i; v ← e; store a i (old * v)%num.
Definition div_assign (a : loc) (i : nat) (e : M T T) : M T unit :=
  old ← load a i; v ← e; store a i (old / v)%num.

(** [a[i]] as a JavaScript value: [undefined] ([None]) out of range. *)
Definition load_raw (a : loc) (i : nat) : M T (option T) :=
  fun h => b ← h !! a; Some (b !! i, h).

(** A value that is a number or [undefined], converted to a number. *)
Definition to_number (v : option T) : T := default nnan v.

(** [arr[i]] on an array of objects, used as an object. *)
Definition index_obj (arr : list loc) (i : nat) : M T loc := deref (arr !! i).

(** The elements of each of the objects [ls], in order. *)
Fixpoint contents_all (ls : list loc) : M T (list (list T)) :=
  match ls with
  | [] => mret []
  | a :: ls => b ← contents a; bs ← contents_all ls; mret (b :: bs)
  end.

End Primitives.

(** ** Vector3 *)

Module Vector3.
Section Methods.
Context {T : Type} `{Number T} `{Algebra T}.

(** Modelled from the spec: [Vector3] lives in [./Vector3], outside the
    sources at hand.  The spec describes it as a 3-component numeric value
    with index-based access to components [0..2], built from 3 scalars. *)
Definition new (x y z : T) : M T loc :=
  this ← new_Float64Array 3;
  store this 0 x;;
  store this 1 y;;
  store this 2 z;;
  mret this.

(** Modelled from the spec: squared Euclidean distance between the
    components of two vectors. *)
Definition dist2 (this v : loc) : M T T :=
  a0 ← load this 0; b0 ← load v 0;
  a1 ← load this 1; b1 ← load v 1;
  a2 ← load this 2; b2 ← load v 2;
  let dx := (a0 - b0)%num in
  let dy := (a1 - b1)%num in
  let dz := (a2 - b2)%num in
  mret (dx * dx + dy * dy + dz * dz)%num.

(** Modelled from the spec: fuzzy equality, squared distance below the
    shared tolerance [epsilon2]. *)
Definition equal (this v : loc) : M T bool :=
  d ← dist2 this v;
  mret (d <? epsilon2)%num.

(** Modelled from the spec: [clone()], an independent copy of the vector. *)
Definition clone (this : loc) : M T loc :=
  x ← load this 0; y ← load this 1; z ← load this 2;
  new x y z.

End Methods.
End Vector3.

(** ** Matrix3 *)

Module Matrix3.
Section Methods.
Context {T : Type} `{Number T} `{Algebra T}.

(** [constructor(xx, xy, xz, yx, yy, yz, zx, zy, zz)]: components are given
    by rows and stored by columns. *)
Definition new (xx xy xz yx yy yz zx zy zz : T) : M T loc :=
  this ← new_Float64Array 9;
  store this 0 xx;;
  store this 1 yx;;
  store this 2 zx;;
  store this 3 xy;;
  store this 4 yy;;
  store this 5 zy;;
  store this 6 xz;;
  store this 7 yz;;
  store this 8 zz;;
  mret this.

(** [get x()], [get y()], [get z()] *)
Definition get_x (this : loc) : M T loc :=
  a ← load this 0; b ← load this 1; c ← load this 2;
  Vector3.new a b c.

Definition get_y (this : loc) : M T loc :=
  a ← load this 3; b ← load this 4; c ← load this 5;
  Vector3.new a b c.

Definition get_z (this : loc) : M T loc :=
  a ← load this 6; b ← load this 7; c ← load this 8;
  Vector3.new a b c.

(** [set x(newX)], [set y(newY)], [set z(newZ)] *)
Definition set_x (this newX : loc) : M T unit :=
  (v ← load newX 0; store this 0 v);;
  (v ← load newX 1; store this 3 v);;
  (v ← load newX 2; store this 6 v).

Definition set_y (this newY : loc) : M T unit :=
  (v ← load newY 0; store this 1 v);;
  (v ← load newY 1; store this 4 v);;
  (v ← load newY 2; store this 7 v).

Definition set_z (this newZ : loc) : M T unit :=
  (v ← load newZ 0; store this 2 v);;
  (v ← load newZ 1; store this 5 v);;
  (v ← load newZ 2; store this 8 v).

(** [get det()] *)
Definition det (this : loc) : M T T :=
  mxx ← load this 0;
  myx ← load this 1;
  mzx ← load this 2;
  mxy ← load this 3;
  myy ← load this 4;
  mzy ← load this 5;
  mxz ← load this 6;
  myz ← load this 7;
  mzz ← load this 8;
  mret (mxx * (mzz * myy - mzy * myz) + myx * (- mzz * mxy + mzy * mxz)
        + mzx * (myz * mxy - myy * mxz))%num.

(** [dist2(m)] *)
Definition dist2 (this m : loc) : M T T :=
  a0 ← load this 0; b0 ← load m 0;
  a1 ← load this 1; b1 ← load m 1;
  a2 ← load this 2; b2 ← load m 2;
  a3 ← load this 3; b3 ← load m 3;
  a4 ← load this 4; b4 ← load m 4;
  a5 ← load this 5; b5 ← load m 5;
  a6 ← load this 6; b6 ← load m 6;
  a7 ← load this 7; b7 ← load m 7;
  a8 ← load this 8; b8 ← load m 8;
  let dxx := (a0 - b0)%num in
  let dyx := (a1 - b1)%num in
  let dzx := (a2 - b2)%num in
  let dxy := (a3 - b3)%num in
  let dyy := (a4 - b4)%num in
  let dzy := (a5 - b5)%num in
  let dxz := (a6 - b6)%num in
  let dyz := (a7 - b7)%num in
  let dzz := (a8 - b8)%num in
  let dxx2 := (dxx * dxx)%num in
  let dyx2 := (dyx * dyx)%num in
  let dzx2 := (dzx * dzx)%num in
  let dxy2 := (dxy * dxy)%num in
  let dyy2 := (dyy * dyy)%num in
  let dzy2 := (dzy * dzy)%num in
  let dxz2 := (dxz * dxz)%num in
  let dyz2 := (dyz * dyz)%num in
  let dzz2 := (dzz * dzz)%num in
  mret (dxx2 + dyx2 + dzx2 + dxy2 + dyy2 + dzy2 + dxz2 + dyz2 + dzz2)%num.

(** [equal(m)] *)
Definition equal (this m : loc) : M T bool :=
  d ← dist2 this m;
  mret (d <? epsilon2)%num.

(** [array()]: the buffer spread into a plain array, in storage order. *)
Definition array (this : loc) : M T (list T) := contents this.

(** [assign(xx, xy, xz, yx, yy, yz, zx, zy, zz)] *)
Definition assign (this : loc) (xx xy xz yx yy yz zx zy zz : T) : M T loc :=
  store this 0 xx;;
  store this 1 yx;;
  store this 2 zx;;
  store this 3 xy;;
  store this 4 yy;;
  store this 5 zy;;
  store this 6 xz;;
  store this 7 yz;;
  store this 8 zz;;
  mret this.

(** [clone()] *)
Definition clone (this : loc) : M T loc :=
  a0 ← load this 0;
  a3 ← load this 3;
  a6 ← load this 6;
  a1 ← load this 1;
  a4 ← load this 4;
  a7 ← load this 7;
  a2 ← load this 2;
  a5 ← load this 5;
  a8 ← load this 8;
  new a0 a3 a6 a1 a4 a7 a2 a5 a8.

(** [fill(s)] and [fillc(s)] *)
Definition fill (this : loc) (s : T) : M T loc :=
  store this 0 s;;
  store this 1 s;;
  store this 2 s;;
  store this 3 s;;
  store this 4 s;;
  store this 5 s;;
  store this 6 s;;
  store this 7 s;;
  store this 8 s;;
  mret this.

Definition fillc (this : loc) (s : T) : M T loc :=
  c ← clone this; fill c s.

(** [mag(a)]: the imported magnitude, applied to the object [a]. *)
Definition mag_of (a : loc) : M T T :=
  b ← contents a; mret (mag b).

(** [norm()] and [normc()] *)
Definition norm (this : loc) : M T loc :=
  s ← mag_of this;
  div_assign this 0 (mret s);;
  div_assign this 1 (mret s);;
  div_assign this 2 (mret s);;
  div_assign this 3 (mret s);;
  div_assign this 4 (mret s);;
  div_assign this 5 (mret s);;
  div_assign this 6 (mret s);;
  div_assign this 7 (mret s);;
  div_assign this 8 (mret s);;
  mret this.

Definition normc (this : loc) : M T loc :=
  c ← clone this; norm c.

(** [add(m)] and [addc(m)] *)
Definition add (this m : loc) : M T loc :=
  add_assign this 0 (load m 0);;
  add_assign this 1 (load m 1);;
  add_assign this 2 (load m 2);;
  add_assign this 3 (load m 3);;
  add_assign this 4 (load m 4);;
  add_assign this 5 (load m 5);;
  add_assign this 6 (load m 6);;
  add_assign this 7 (load m 7);;
  add_assign this 8 (load m 8);;
  mret this.

Definition addc (this m : loc) : M T loc :=
  c ← clone this; add c m.

(** [sub(m)] and [subc(m)] *)
Definition sub (this m : loc) : M T loc :=
  sub_assign this 0 (load m 0);;
  sub_assign this 1 (load m 1);;
  sub_assign this 2 (load m 2);;
  sub_assign this 3 (load m 3);;
  sub_assign this 4 (load m 4);;
  sub_assign this 5 (load m 5);;
  sub_assign this 6 (load m 6);;
  sub_assign this 7 (load m 7);;
  sub_assign this 8 (load m 8);;
  mret this.

Definition subc (this m : loc) : M T loc :=
  c ← clone this; sub c m.

(** [neg()] and [negc()] *)
Definition neg (this : loc) : M T loc :=
  mul_assign this 0 (mret (- n1)%num);;
  mul_assign this 1 (mret (- n1)%num);;
  mul_assign this 2 (mret (- n1)%num);;
  mul_assign this 3 (mret (- n1)%num);;
  mul_assign this 4 (mret (- n1)%num);;
  mul_assign this 5 (mret (- n1)%num);;
  mul_assign this 6 (mret (- n1)%num);;
  mul_assign this 7 (mret (- n1)%num);;
  mul_assign this 8 (mret (- n1)%num);;
  mret this.

Definition negc (this : loc) : M T loc :=
  c ← clone this; neg c.

(** [mul(s)] and [mulc(s)] *)
Definition mul (this : loc) (s : T) : M T loc :=
  mul_assign this 0 (mret s);;
  mul_assign this 1 (mret s);;
  mul_assign this 2 (mret s);;
  mul_assign this 3 (mret s);;
  mul_assign this 4 (mret s);;
  mul_assign this 5 (mret s);;
  mul_assign this 6 (mret s);;
  mul_assign this 7 (mret s);;
  mul_assign this 8 (mret s);;
  mret this.

Definition mulc (this : loc) (s : T) : M T loc :=
  c ← clone this; mul c s.

(** [div(s)] and [divc(s)] *)
Definition div (this : loc) (s : T) : M T loc :=
  div_assign this 0 (mret s);;
  div_assign this 1 (mret s);;
  div_assign this 2 (mret s);;
  div_assign this 3 (mret s);;
  div_assign this 4 (mret s);;
  div_assign this 5 (mret s);;
  div_assign this 6 (mret s);;
  div_assign this 7 (mret s);;
  div_assign this 8 (mret s);;
  mret this.

Definition divc (this : loc) (s : T) : M T loc :=
  c ← clone this; div c s.

(** [lerp(m, t)] and [lerpc(m, t)] *)
Definition lerp_rhs (this m : loc) (i : nat) (t : T) : M T T :=
  a ← load m i; b ← load this i; mret ((a - b) * t)%num.

Definition lerp (this m : loc) (t : T) : M T loc :=
  add_assign this 0 (lerp_rhs this m 0 t);;
  add_assign this 1 (lerp_rhs this m 1 t);;
  add_assign this 2 (lerp_rhs this m 2 t);;
  add_assign this 3 (lerp_rhs this m 3 t);;
  add_assign this 4 (lerp_rhs this m 4 t);;
  add_assign this 5 (lerp_rhs this m 5 t);;
  add_assign this 6 (lerp_rhs this m 6 t);;
  add_assign this 7 (lerp_rhs this m 7 t);;
  add_assign this 8 (lerp_rhs this m 8 t);;
  mret this.

Definition lerpc (this m : loc) (t : T) : M T loc :=
  c ← clone this; lerp c m t.

(** [trans()] and [transc()] *)
Definition trans (this : loc) : M T loc :=
  mxy ← load this 1;
  mxz ← load this 2;
  myz ← load this 5;
  (v ← load this 3; store this 1 v);;
  (v ← load this 6; store this 2 v);;
  store this 3 mxy;;
  (v ← load this 7; store this 5 v);;
  store this 6 mxz;;
  store this 7 myz;;
  mret this.

Definition transc (this : loc) : M T loc :=
  c ← clone this; trans c.

(** [prod(m)] and [prodc(m)] *)
Definition prod (this m : loc) : M T loc :=
  xx ← load this 0;
  yx ← load this 1;
  zx ← load this 2;
  xy ← load this 3;
  yy ← load this 4;
  zy ← load this 5;
  xz ← load this 6;
  yz ← load this 7;
  zz ← load this 8;
  mxx ← load m 0;
  myx ← load m 1;
  mzx ← load m 2;
  mxy ← load m 3;
  myy ← load m 4;
  mzy ← load m 5;
  mxz ← load m 6;
  myz ← load m 7;
  mzz ← load m 8;
  store this 0 (mxx * xx + myx * xy + mzx * xz)%num;;
  store this 1 (mxx * yx + myx * yy + mzx * yz)%num;;
  store this 2 (mxx * zx + myx * zy + mzx * zz)%num;;
  store this 3 (mxy * xx + myy * xy + mzy * xz)%num;;
  store this 4 (mxy * yx + myy * yy + mzy * yz)%num;;
  store this 5 (mxy * zx + myy * zy + mzy * zz)%num;;
  store this 6 (mxz * xx + myz * xy + mzz * xz)%num;;
  store this 7 (mxz * yx + myz * yy + mzz * yz)%num;;
  store this 8 (mxz * zx + myz * zy + mzz * zz)%num;;
  mret this.

Definition prodc (this m : loc) : M T loc :=
  c ← clone this; prod c m.

(** [inv()] and [invc()]: [undefined] ([None]) when [!det]. *)
Definition inv (this : loc) : M T (option loc) :=
  xx ← load this 0;
  yx ← load this 1;
  zx ← load this 2;
  xy ← load this 3;
  yy ← load this 4;
  zy ← load this 5;
  xz ← load this 6;
  yz ← load this 7;
  zz ← load this 8;
  let dyx := (zz * yy - zy * yz)%num in
  let dyy := (- zz * xy + zy * xz)%num in
  let dyz := (yz * xy - yy * xz)%num in
  let det := (xx * dyx + yx * dyy + zx * dyz)%num in
  if falsy det then mret None
  else
    let det := (n1 / det)%num in
    store this 0 (dyx * det)%num;;
    store this 1 ((- zz * yx + zx * yz) * det)%num;;
    store this 2 ((zy * yx - zx * yy) * det)%num;;
    store this 3 (dyy * det)%num;;
    store this 4 ((zz * xx - zx * xz) * det)%num;;
    store this 5 ((- zy * xx + zx * xy) * det)%num;;
    store this 6 (dyz * det)%num;;
    store this 7 ((- yz * xx + yx * xz) * det)%num;;
    store this 8 ((yy * xx - yx * xy) * det)%num;;
    mret (Some this).

Definition invc (this : loc) : M T (option loc) :=
  c ← clone this; inv c.

(** [at(u)]: the product is written into [u]. *)
Definition at_ (this u : loc) : M T loc :=
  ux ← load u 0;
  uy ← load u 1;
  uz ← load u 2;
  (a ← load this 0; b ← load this 3; c ← load this 6;
   store u 0 (a * ux + b * uy + c * uz)%num);;
  (a ← load this 1; b ← load this 4; c ← load this 7;
   store u 1 (a * ux + b * uy + c * uz)%num);;
  (a ← load this 2; b ← load this 5; c ← load this 8;
   store u 2 (a * ux + b * uy + c * uz)%num);;
  mret u.

(** [rpow(exp)] on an integer exponent.  [depth] bounds the nesting of the
    recursive calls; [rpow] below supplies enough of it. *)
Fixpoint rpow_rec (depth : nat) (this : loc) (exp : Z) : M T unit :=
  if (1 <? exp)%Z then
    match depth with
    | O => throw
    | S depth =>
        copy ← clone this;
        prod this copy;;
        if (exp mod 2 =? 0)%Z then
          rpow_rec depth this (exp / 2)%Z
        else if (exp mod 2 =? 1)%Z then
          rpow_rec depth this ((exp - 1) / 2)%Z;;
          prod this copy;;
          mret tt
        else mret tt
    end
  else mret tt.

Definition rpow (this : loc) (exp : Z) : M T unit :=
  rpow_rec (Z.to_nat exp) this exp.

(** [pow(exp)] and [powc(exp)] *)
Definition pow (this : loc) (exp : Z) : M T loc :=
  (if (exp <? 0)%Z then inv this;; mret tt else mret tt);;
  (if (exp =? 0)%Z then assign this n1 n0 n0 n0 n1 n0 n0 n0 n1;; mret tt
   else mret tt);;
  rpow this (Z.abs exp);;
  mret this.

Definition powc (this : loc) (exp : Z) : M T loc :=
  c ← clone this; pow c exp.

(** [adj()] and [adjc()] *)
Definition adj (this : loc) : M T loc :=
  xx ← load this 0;
  yx ← load this 1;
  zx ← load this 2;
  xy ← load this 3;
  yy ← load this 4;
  zy ← load this 5;
  xz ← load this 6;
  yz ← load this 7;
  zz ← load this 8;
  store this 0 (yy * zz - zy * yz)%num;;
  store this 1 (zx * yz - yx * zz)%num;;
  store this 2 (yx * zy - zx * yy)%num;;
  store this 3 (zy * xz - xy * zz)%num;;
  store this 4 (xx * zz - zx * xz)%num;;
  store this 5 (zx * xy - xx * zy)%num;;
  store this 6 (xy * yz - yy * xz)%num;;
  store this 7 (yx * xz - xx * yz)%num;;
  store this 8 (xx * yy - yx * xy)%num;;
  mret this.

Definition adjc (this : loc) : M T loc :=
  c ← clone this; adj c.


(** [get xyz()] and [set xyz(rows)] *)
Definition get_xyz (this : loc) : M T (list loc) :=
  r0 ← (a ← load this 0; b ← load this 3; c ← load this 6; Vector3.new a b c);
  r1 ← (a ← load this 1; b ← load this 4; c ← load this 7; Vector3.new a b c);
  r2 ← (a ← load this 2; b ← load this 5; c ← load this 8; Vector3.new a b c);
  mret [r0; r1; r2].

Definition set_xyz (this : loc) (rows : list loc) : M T unit :=
  (r ← index_obj rows 0; v ← load r 0; store this 0 v);;
  (r ← index_obj rows 1; v ← load r 0; store this 1 v);;
  (r ← index_obj rows 2; v ← load r 0; store this 2 v);;
  (r ← index_obj rows 0; v ← load r 1; store this 3 v);;
  (r ← index_obj rows 1; v ← load r 1; store this 4 v);;
  (r ← index_obj rows 2; v ← load r 1; store this 5 v);;
  (r ← index_obj rows 0; v ← load r 2; store this 6 v);;
  (r ← index_obj rows 1; v ← load r 2; store this 7 v);;
  (r ← index_obj rows 2; v ← load r 2; store this 8 v).

(** [get xyzt()] and [set xyzt(cols)] *)
Definition get_xyzt (this : loc) : M T (list loc) :=
  c0 ← (a ← load this 0; b ← load this 1; c ← load this 2; Vector3.new a b c);
  c1 ← (a ← load this 3; b ← load this 4; c ← load this 5; Vector3.new a b c);
  c2 ← (a ← load this 6; b ← load this 7; c ← load this 8; Vector3.new a b c);
  mret [c0; c1; c2].

Definition set_xyzt (this : loc) (cols : list loc) : M T unit :=
  (r ← index_obj cols 0; v ← load r 0; store this 0 v);;
  (r ← index_obj cols 0; v ← load r 1; store this 1 v);;
  (r ← index_obj cols 0; v ← load r 2; store this 2 v);;
  (r ← index_obj cols 1; v ← load r 0; store this 3 v);;
  (r ← index_obj cols 1; v ← load r 1; store this 4 v);;
  (r ← index_obj cols 1; v ← load r 2; store this 5 v);;
  (r ← index_obj cols 2; v ← load r 0; store this 6 v);;
  (r ← index_obj cols 2; v ← load r 1; store this 7 v);;
  (r ← index_obj cols 2; v ← load r 2; store this 8 v).

(** [zero()] *)
Definition zero (this : loc) : M T bool :=
  xx ← load this 0;
  yx ← load this 1;
  zx ← load this 2;
  xy ← load this 3;
  yy ← load this 4;
  zy ← load this 5;
  xz ← load this 6;
  yz ← load this 7;
  zz ← load this 8;
  mret (xx * xx + yx * yx + zx * zx + xy * xy + yy * yy + zy * zy
        + xz * xz + yz * yz + zz * zz <? epsilon2)%num.

(** [copy(m)] *)
Definition copy (this m : loc) : M T loc :=
  (v ← load m 0; store this 0 v);;
  (v ← load m 1; store this 1 v);;
  (v ← load m 2; store this 2 v);;
  (v ← load m 3; store this 3 v);;
  (v ← load m 4; store this 4 v);;
  (v ← load m 5; store this 5 v);;
  (v ← load m 6; store this 6 v);;
  (v ← load m 7; store this 7 v);;
  (v ← load m 8; store this 8 v);;
  mret this.

(** [reset0()] and [reset1()] *)
Definition reset0 (this : loc) : M T loc :=
  store this 0 n0;;
  store this 1 n0;;
  store this 2 n0;;
  store this 3 n0;;
  store this 4 n0;;
  store this 5 n0;;
  store this 6 n0;;
  store this 7 n0;;
  store this 8 n0;;
  mret this.

Definition reset1 (this : loc) : M T loc :=
  store this 0 n1;;
  store this 1 n0;;
  store this 2 n0;;
  store this 3 n0;;
  store this 4 n1;;
  store this 5 n0;;
  store this 6 n0;;
  store this 7 n0;;
  store this 8 n1;;
  mret this.

(** [dot(m)] *)
Definition dot (this m : loc) : M T T :=
  sxx ← (a ← load this 0; b ← load m 0; mret (a * b)%num);
  syx ← (a ← load this 1; b ← load m 1; mret (a * b)%num);
  szx ← (a ← load this 2; b ← load m 2; mret (a * b)%num);
  sxy ← (a ← load this 3; b ← load m 3; mret (a * b)%num);
  syy ← (a ← load this 4; b ← load m 4; mret (a * b)%num);
  szy ← (a ← load this 5; b ← load m 5; mret (a * b)%num);
  sxz ← (a ← load this 6; b ← load m 6; mret (a * b)%num);
  syz ← (a ← load this 7; b ← load m 7; mret (a * b)%num);
  szz ← (a ← load this 8; b ← load m 8; mret (a * b)%num);
  mret (sxx + syx + szx + sxy + syy + szy + sxz + syz + szz)%num.

(** [row(i)] and [col(j)]: plain arrays of what the three reads return. *)
Definition row (this : loc) (i : nat) : M T (list (option T)) :=
  a ← load_raw this i;
  b ← load_raw this (3 + i);
  c ← load_raw this (6 + i);
  mret [a; b; c].

Definition col (this : loc) (j : nat) : M T (list (option T)) :=
  let shift := 3 * j in
  a ← load_raw this shift;
  b ← load_raw this (1 + shift);
  c ← load_raw this (2 + shift);
  mret [a; b; c].

(** [atc(u)] *)
Definition atc (this u : loc) : M T loc :=
  c ← Vector3.clone u; at_ this c.

End Methods.

(** The static members. *)
Module Static.
Section Generators.
Context {T : Type} `{Number T}.

(** [static get eye()] *)
Definition eye : M T loc :=
  new n1 n0 n0 n0 n1 n0 n0 n0 n1.

(** [static scalar(s)] *)
Definition scalar (s : T) : M T loc :=
  new s n0 n0 n0 s n0 n0 n0 s.

(** [static rotZ(theta, cos, sin)]; the source defaults the last two to
    [Math.cos] and [Math.sin]. *)
Definition rotZ (theta : T) (cos sin : T -> T) : M T loc :=
  let c := cos theta in
  let s := sin theta in
  new c (- s)%num n0 s c n0 n0 n0 n1.

(** [static array(arr)] *)
Definition array (arr : list T) : M T loc :=
  new (elem arr 0) (elem arr 1) (elem arr 2)
      (elem arr 3) (elem arr 4) (elem arr 5)
      (elem arr 6) (elem arr 7) (elem arr 8).

(** [static get zeros()] and [static get ones()] *)
Definition zeros : M T loc :=
  new n0 n0 n0 n0 n0 n0 n0 n0 n0.

Definition ones : M T loc :=
  new n1 n1 n1 n1 n1 n1 n1 n1 n1.

(** [static diag(xx, yy, zz)] *)
Definition diag (xx yy zz : T) : M T loc :=
  new xx n0 n0 n0 yy n0 n0 n0 zz.

(** [static sym(xx, yy, zz, xy, yz, xz = 0)] and
    [static asym(xx, yy, zz, xy, yz, xz = 0)]: an omitted last argument is
    [None]. *)
Definition sym (xx yy zz xy yz : T) (xz : option T) : M T loc :=
  let xz := default n0 xz in
  new xx xy xz xy yy yz xz yz zz.

Definition asym (xx yy zz xy yz : T) (xz : option T) : M T loc :=
  let xz := default n0 xz in
  new xx xy xz (- xy)%num yy yz (- xz)%num (- yz)%num zz.

(** [static e(i, j)] *)
Definition e (i j : nat) : M T loc :=
  eij ← new n0 n0 n0 n0 n0 n0 n0 n0 n0;
  store eij (3 * j + i) n1;;
  mret eij.

(** [static rotX(theta, cos, sin)] and [static rotY(theta, cos, sin)] *)
Definition rotX (theta : T) (cos sin : T -> T) : M T loc :=
  let c := cos theta in
  let s := sin theta in
  new n1 n0 n0 n0 c (- s)%num n0 s c.

Definition rotY (theta : T) (cos sin : T -> T) : M T loc :=
  let c := cos theta in
  let s := sin theta in
  new c n0 s n0 n1 n0 (- s)%num n0 c.

(** [static rot(u, theta, cos, sin)] *)
Definition rot (u : loc) (theta : T) (cos sin : T -> T) : M T loc :=
  let c := cos theta in
  let s := sin theta in
  let k := (n1 - c)%num in
  ux ← load u 0;
  uy ← load u 1;
  uz ← load u 2;
  let kuxy := (k * ux * uy)%num in
  let kuxz := (k * ux * uz)%num in
  let kuyz := (k * uy * uz)%num in
  new (k * ux * ux + c)%num (kuxy - uz * s)%num (kuxz + uy * s)%num
      (kuxy + uz * s)%num (k * uy * uy + c)%num (kuyz - ux * s)%num
      (kuxz - uy * s)%num (kuyz + ux * s)%num (k * uz * uz + c)%num.

(** [static affine(m, u, v)]: the result is written into [v]. *)
Definition affine (m u v : loc) : M T loc :=
  vx ← load v 0;
  vy ← load v 1;
  vz ← load v 2;
  (a ← load m 0; b ← load m 3; c ← load m 6; t ← load u 0;
   store v 0 (a * vx + b * vy + c * vz + t)%num);;
  (a ← load m 1; b ← load m 4; c ← load m 7; t ← load u 1;
   store v 1 (a * vx + b * vy + c * vz + t)%num);;
  (a ← load m 2; b ← load m 5; c ← load m 8; t ← load u 2;
   store v 2 (a * vx + b * vy + c * vz + t)%num);;
  mret v.

(** [static tensor(u, v = u)]: an omitted second vector is [None]. *)
Definition tensor (u : loc) (v : option loc) : M T loc :=
  let v := default u v in
  a00 ← (a ← load u 0; b ← load v 0; mret (a * b)%num);
  a01 ← (a ← load u 0; b ← load v 1; mret (a * b)%num);
  a02 ← (a ← load u 0; b ← load v 2; mret (a * b)%num);
  a10 ← (a ← load u 1; b ← load v 0; mret (a * b)%num);
  a11 ← (a ← load u 1; b ← load v 1; mret (a * b)%num);
  a12 ← (a ← load u 1; b ← load v 2; mret (a * b)%num);
  a20 ← (a ← load u 2; b ← load v 0; mret (a * b)%num);
  a21 ← (a ← load u 2; b ← load v 1; mret (a * b)%num);
  a22 ← (a ← load u 2; b ← load v 2; mret (a * b)%num);
  new a00 a01 a02 a10 a11 a12 a20 a21 a22.

(** [static array2(arr)]: [arr[i][j]] throws when [arr[i]] is missing and
    is [undefined] when only the element is. *)
Definition index2 (arr : list (list (option T))) (i j : nat) : M T T :=
  match arr !! i with
  | Some r => mret (to_number (mjoin (r !! j)))
  | None => throw
  end.

Definition array2 (arr : list (list (option T))) : M T loc :=
  a00 ← index2 arr 0 0; a01 ← index2 arr 0 1; a02 ← index2 arr 0 2;
  a10 ← index2 arr 1 0; a11 ← index2 arr 1 1; a12 ← index2 arr 1 2;
  a20 ← index2 arr 2 0; a21 ← index2 arr 2 1; a22 ← index2 arr 2 2;
  new a00 a01 a02 a10 a11 a12 a20 a21 a22.

(** [static xyz(arr)] *)
Definition xyz (arr : list loc) : M T loc :=
  a00 ← (r ← index_obj arr 0; load r 0);
  a01 ← (r ← index_obj arr 0; load r 1);
  a02 ← (r ← index_obj arr 0; load r 2);
  a10 ← (r ← index_obj arr 1; load r 0);
  a11 ← (r ← index_obj arr 1; load r 1);
  a12 ← (r ← index_obj arr 1; load r 2);
  a20 ← (r ← index_obj arr 2; load r 0);
  a21 ← (r ← index_obj arr 2; load r 1);
  a22 ← (r ← index_obj arr 2; load r 2);
  new a00 a01 a02 a10 a11 a12 a20 a21 a22.

End Generators.
End Static.
End Matrix3.

(** ** Matrices as values *)

Section Values.
Context {T : Type} `{Number T} `{Algebra T}.

(** A buffer is a matrix when it has 9 elements. *)
Definition is_Matrix3 (b : list T) : Prop := length b = 9.

(** The buffer of the matrix with rows [(xx, xy, xz)], [(yx, yy, yz)],
    [(zx, zy, zz)]: what the constructor stores. *)
Definition mat3 (xx xy xz yx yy yz zx zy zz : T) : list T :=
  [xx; yx; zx; xy; yy; zy; xz; yz; zz].

(** Data model: index [3*j + i] holds the entry at row [i], column [j]. *)
Definition entry (A : list T) (i j : nat) : T := elem A (3 * j + i).

Definition of_entries (f : nat -> nat -> T) : list T :=
  mat3 (f 0 0) (f 0 1) (f 0 2) (f 1 0) (f 1 1) (f 1 2) (f 2 0) (f 2 1) (f 2 2).

(** The matrix product in the spec's words: entry [(i, j)] is the sum over
    [k] of [A(i,k) * B(k,j)]. *)
Definition matmul (A B : list T) : list T :=
  of_entries (fun i j =>
    entry A i 0 * entry B 0 j + entry A i 1 * entry B 1 j
    + entry A i 2 * entry B 2 j)%num.

Definition transpose (A : list T) : list T := of_entries (fun i j => entry A j i).

Definition symmetric (A : list T) : Prop :=
  entry A 0 1 = entry A 1 0 /\ entry A 0 2 = entry A 2 0 /\ entry A 1 2 = entry A 2 1.

Definition identity : list T := mat3 n1 n0 n0 n0 n1 n0 n0 n0 n1.

Definition scalar_matrix (s : T) : list T := mat3 s n0 n0 n0 s n0 n0 n0 s.

(** The [n]-fold product [M * M * ... * M], the identity for [n = 0]. *)
Fixpoint mpow (A : list T) (n : nat) : list T :=
  match n with
  | O => identity
  | S k =>
      match k with
      | O => A
      | S _ => matmul (mpow A k) A
      end
  end.

(** The 9 elements [f 0 .. f 8]. *)
Definition tab9 (f : nat -> T) : list T :=
  [f 0; f 1; f 2; f 3; f 4; f 5; f 6; f 7; f 8].

(** What each method leaves in its receiver, as a function of the buffers
    it started from. *)
Definition clone_of (A : list T) : list T := tab9 (elem A).
Definition fill_of (s : T) : list T := tab9 (fun _ => s).
Definition add_of (A B : list T) : list T := tab9 (fun i => elem A i + elem B i)%num.
Definition sub_of (A B : list T) : list T := tab9 (fun i => elem A i - elem B i)%num.
Definition neg_of (A : list T) : list T := tab9 (fun i => elem A i * - n1)%num.
Definition mul_of (A : list T) (s : T) : list T := tab9 (fun i => elem A i * s)%num.
Definition div_of (A : list T) (s : T) : list T := tab9 (fun i => elem A i / s)%num.
Definition norm_of (A : list T) : list T := div_of A (mag A).
Definition lerp_of (A B : list T) (t : T) : list T :=
  tab9 (fun i => elem A i + (elem B i - elem A i) * t)%num.
Definition trans_of (A : list T) : list T :=
  [elem A 0; elem A 3; elem A 6; elem A 1; elem A 4; elem A 7; elem A 2; elem A 5; elem A 8].

Definition prod_of (A B : list T) : list T :=
  let xx := elem A 0 in let yx := elem A 1 in let zx := elem A 2 in
  let xy := elem A 3 in let yy := elem A 4 in let zy := elem A 5 in
  let xz := elem A 6 in let yz := elem A 7 in let zz := elem A 8 in
  let mxx := elem B 0 in let myx := elem B 1 in let mzx := elem B 2 in
  let mxy := elem B 3 in let myy := elem B 4 in let mzy := elem B 5 in
  let mxz := elem B 6 in let myz := elem B 7 in let mzz := elem B 8 in
  [ mxx * xx + myx * xy + mzx * xz; mxx * yx + myx * yy + mzx * yz;
    mxx * zx + myx * zy + mzx * zz; mxy * xx + myy * xy + mzy * xz;
    mxy * yx + myy * yy + mzy * yz; mxy * zx + myy * zy + mzy * zz;
    mxz * xx + myz * xy + mzz * xz; mxz * yx + myz * yy + mzz * yz;
    mxz * zx + myz * zy + mzz * zz ]%num.

Definition det_of (A : list T) : T :=
  let mxx := elem A 0 in let myx := elem A 1 in let mzx := elem A 2 in
  let mxy := elem A 3 in let myy := elem A 4 in let mzy := elem A 5 in
  let mxz := elem A 6 in let myz := elem A 7 in let mzz := elem A 8 in
  (mxx * (mzz * myy - mzy * myz) + myx * (- mzz * mxy + mzy * mxz)
   + mzx * (myz * mxy - myy * mxz))%num.

Definition adj_of (A : list T) : list T :=
  let xx := elem A 0 in let yx := elem A 1 in let zx := elem A 2 in
  let xy := elem A 3 in let yy := elem A 4 in let zy := elem A 5 in
  let xz := elem A 6 in let yz := elem A 7 in let zz := elem A 8 in
  [ yy * zz - zy * yz; zx * yz - yx * zz; yx * zy - zx * yy;
    zy * xz - xy * zz; xx * zz - zx * xz; zx * xy - xx * zy;
    xy * yz - yy * xz; yx * xz - xx * yz; xx * yy - yx * xy ]%num.

(** The adjugate-over-determinant formula as [inv] writes it. *)
Definition inv_of (A : list T) : list T :=
  let xx := elem A 0 in let yx := elem A 1 in let zx := elem A 2 in
  let xy := elem A 3 in let yy := elem A 4 in let zy := elem A 5 in
  let xz := elem A 6 in let yz := elem A 7 in let zz := elem A 8 in
  let det := (n1 / det_of A)%num in
  [ (zz * yy - zy * yz) * det; (- zz * yx + zx * yz) * det;
    (zy * yx - zx * yy) * det; (- zz * xy + zy * xz) * det;
    (zz * xx - zx * xz) * det; (- zy * xx + zx * xy) * det;
    (yz * xy - yy * xz) * det; (- yz * xx + yx * xz) * det;
    (yy * xx - yx * xy) * det ]%num.

(** Binary exponentiation as [rpow] runs it. *)
Fixpoint rpow_of (depth : nat) (A : list T) (exp : Z) : list T :=
  if (1 <? exp)%Z then
    match depth with
    | O => A
    | S depth =>
        let A2 := prod_of A A in
        if (exp mod 2 =? 0)%Z then rpow_of depth A2 (exp / 2)%Z
        else if (exp mod 2 =? 1)%Z then prod_of (rpow_of depth A2 ((exp - 1) / 2)%Z) A
        else A2
    end
  else A.

Definition pow_of (A : list T) (exp : Z) : list T :=
  let A1 := if (exp <? 0)%Z then (if falsy (det_of A) then A else inv_of A) else A in
  let A2 := if (exp =? 0)%Z then identity else A1 in
  rpow_of (Z.to_nat (Z.abs exp)) A2 (Z.abs exp).

(** Squared distance and fuzzy equality of two buffers, as [dist2] and
    [equal] compute them. *)
Definition dist2_of (A B : list T) : T :=
  let d := fun i => (elem A i - elem B i)%num in
  (d 0 * d 0 + d 1 * d 1 + d 2 * d 2 + d 3 * d 3 + d 4 * d 4 + d 5 * d 5
   + d 6 * d 6 + d 7 * d 7 + d 8 * d 8)%num.

Definition equal_of (A B : list T) : bool := (dist2_of A B <? epsilon2)%num.

(** Heap [h'] differs from [h] at most at [this] and by new objects. *)
Definition modifies_only (this : loc) (h h' : heap T) : Prop :=
  length h <= length h' /\
  forall l, l < length h -> l <> this -> h' !! l = h !! l.

(** Every object of [h] is still in [h'], unchanged. *)
Definition preserves (h h' : heap T) : Prop :=
  forall l b, h !! l = Some b -> h' !! l = Some b.

End Values.

(** ** The expressions of the specification *)

Section Scenarios.
Context {T : Type} `{Number T} `{Algebra T}.

(** Running [c] from [h] mutates the object at [this] into [R], returns
    [this], and touches no other object of [h]. *)
Definition mutates_to (c : M T loc) (this : loc) (R : list T) (h : heap T) : Prop :=
  exists h', c h = Some (this, h') /\ h' !! this = Some R /\ modifies_only this h h'.

(** Running [c] from [h] returns a new object holding [R] and leaves every
    object of [h] as it was; in particular [this] still holds [A]. *)
Definition copies_to (c : M T loc) (this : loc) (A R : list T) (h : heap T) : Prop :=
  exists r h', c h = Some (r, h') /\ length h <= r /\ h' !! r = Some R
    /\ h' !! this = Some A /\ preserves h h'.

(** [M.x = v; M.x], and the same for [y] and [z]. *)
Definition set_get_x (this v : loc) : M T loc :=
  Matrix3.set_x this v;; Matrix3.get_x this.
Definition set_get_y (this v : loc) : M T loc :=
  Matrix3.set_y this v;; Matrix3.get_y this.
Definition set_get_z (this v : loc) : M T loc :=
  Matrix3.set_z this v;; Matrix3.get_z this.

(** [Matrix3.array(M.array())] and [Matrix3.array(M.array()).equal(M)] *)
Definition array_roundtrip (this : loc) : M T loc :=
  arr ← Matrix3.array this; Matrix3.Static.array arr.
Definition array_roundtrip_equal (this : loc) : M T bool :=
  r ← array_roundtrip this; Matrix3.equal r this.

(** [M.prodc(M.invc())] and [M.invc().prod(M)], and their comparison with
    [Matrix3.eye]. *)
Definition right_inverse (this : loc) : M T loc :=
  i ← Matrix3.invc this; i ← deref i; Matrix3.prodc this i.
Definition left_inverse (this : loc) : M T loc :=
  i ← Matrix3.invc this; i ← deref i; Matrix3.prod i this.
Definition right_inverse_equal (this : loc) : M T bool :=
  p ← right_inverse this; e ← Matrix3.Static.eye; Matrix3.equal p e.
Definition left_inverse_equal (this : loc) : M T bool :=
  p ← left_inverse this; e ← Matrix3.Static.eye; Matrix3.equal p e.

(** [M.powc(a).prod(M.powc(b))] next to [M.powc(a + b)], and their
    comparison. *)
Definition pow_sum (this : loc) (a b : Z) : M T (loc * loc) :=
  p ← Matrix3.powc this a;
  q ← Matrix3.powc this b;
  r ← Matrix3.prod p q;
  s ← Matrix3.powc this (a + b);
  mret (r, s).
Definition pow_sum_equal (this : loc) (a b : Z) : M T bool :=
  rs ← pow_sum this a b; Matrix3.equal rs.1 rs.2.

(** [M.prodc(M.adjc())] and [Matrix3.scalar(M.det)] *)
Definition adjugate_product (this : loc) : M T loc :=
  a ← Matrix3.adjc this; Matrix3.prodc this a.
Definition det_scalar (this : loc) : M T loc :=
  d ← Matrix3.det this; Matrix3.Static.scalar d.

(** [Matrix3.rotZ(theta, cos, sin).at(u)], and its comparison with
    [new Vector3(0, 1, 0)]. *)
Definition rotZ_at (theta : T) (cos sin : T -> T) (u : loc) : M T loc :=
  m ← Matrix3.Static.rotZ theta cos sin; Matrix3.at_ m u.
Definition rotZ_at_equal (theta : T) (cos sin : T -> T) (u : loc) : M T bool :=
  r ← rotZ_at theta cos sin u;
  e ← Vector3.new n0 n1 n0;
  Vector3.equal r e.

End Scenarios.

(** ** Further values and expressions *)

Section MoreValues.
Context {T : Type} `{Number T} `{Algebra T}.

(** A buffer is a vector when it has 3 elements. *)
Definition is_Vector3 (b : list T) : Prop := length b = 3.

(** The matrix with the given vectors as rows, and as columns. *)
Definition of_rows (R0 R1 R2 : list T) : list T :=
  mat3 (elem R0 0) (elem R0 1) (elem R0 2)
       (elem R1 0) (elem R1 1) (elem R1 2)
       (elem R2 0) (elem R2 1) (elem R2 2).

Definition of_cols (C0 C1 C2 : list T) : list T :=
  mat3 (elem C0 0) (elem C1 0) (elem C2 0)
       (elem C0 1) (elem C1 1) (elem C2 1)
       (elem C0 2) (elem C1 2) (elem C2 2).

(** The canonical matrix as [e] builds it: a zero buffer with one write. *)
Definition e_of (i j : nat) : list T := <[3 * j + i := n1]> (replicate 9 n0).

(** The matrices of [sym] and [asym], the last argument already defaulted. *)
Definition sym_of (xx yy zz xy yz xz : T) : list T :=
  mat3 xx xy xz xy yy yz xz yz zz.
Definition asym_of (xx yy zz xy yz xz : T) : list T :=
  mat3 xx xy xz (- xy)%num yy yz (- xz)%num (- yz)%num zz.

(** The value of [dot]. *)
Definition dot_of (A B : list T) : T :=
  (elem A 0 * elem B 0 + elem A 1 * elem B 1 + elem A 2 * elem B 2
   + elem A 3 * elem B 3 + elem A 4 * elem B 4 + elem A 5 * elem B 5
   + elem A 6 * elem B 6 + elem A 7 * elem B 7 + elem A 8 * elem B 8)%num.

(** The outer product of two vectors, entry [(i, j)] being [u_i * v_j]. *)
Definition tensor_of (U V : list T) : list T :=
  of_entries (fun i j => elem U i * elem V j)%num.

(** The product of a matrix and a vector, as [at] computes it. *)
Definition at_of (A V : list T) : list T :=
  [ elem A 0 * elem V 0 + elem A 3 * elem V 1 + elem A 6 * elem V 2;
    elem A 1 * elem V 0 + elem A 4 * elem V 1 + elem A 7 * elem V 2;
    elem A 2 * elem V 0 + elem A 5 * elem V 1 + elem A 8 * elem V 2 ]%num.

(** A vector translated by another, component by component. *)
Definition translate_of (P U : list T) : list T :=
  [elem P 0 + elem U 0; elem P 1 + elem U 1; elem P 2 + elem U 2]%num.

(** The matrices that [rotX], [rotY], [rotZ] and [rot] build from the
    cosine [c], the sine [s] and the axis [U]. *)
Definition rotX_of (c s : T) : list T := mat3 n1 n0 n0 n0 c (- s)%num n0 s c.
Definition rotY_of (c s : T) : list T := mat3 c n0 s n0 n1 n0 (- s)%num n0 c.
Definition rotZ_of (c s : T) : list T := mat3 c (- s)%num n0 s c n0 n0 n0 n1.
Definition rot_of (U : list T) (c s : T) : list T :=
  let k := (n1 - c)%num in
  let ux := elem U 0 in let uy := elem U 1 in let uz := elem U 2 in
  let kuxy := (k * ux * uy)%num in
  let kuxz := (k * ux * uz)%num in
  let kuyz := (k * uy * uz)%num in
  mat3 (k * ux * ux + c)%num (kuxy - uz * s)%num (kuxz + uy * s)%num
       (kuxy + uz * s)%num (k * uy * uy + c)%num (kuyz - ux * s)%num
       (kuxz - uy * s)%num (kuyz + ux * s)%num (k * uz * uz + c)%num.

(** A matrix whose transpose is its inverse; a rotation has determinant 1
    as well. *)
Definition orthogonal (A : list T) : Prop := matmul A (transpose A) = identity.
Definition rotation (A : list T) : Prop := orthogonal A /\ det_of A = n1.

(** A vector of squared length 1. *)
Definition unit_vector (U : list T) : Prop :=
  (elem U 0 * elem U 0 + elem U 1 * elem U 1 + elem U 2 * elem U 2)%num = n1.

End MoreValues.

Section MoreScenarios.
Context {T : Type} `{Number T} `{Algebra T}.

(** [M.xyz = rows; M.xyz] and [M.xyzt = cols; M.xyzt], read out. *)
Definition set_get_xyz (this : loc) (rows : list loc) : M T (list (list T)) :=
  Matrix3.set_xyz this rows;; vs ← Matrix3.get_xyz this; contents_all vs.
Definition set_get_xyzt (this : loc) (cols : list loc) : M T (list (list T)) :=
  Matrix3.set_xyzt this cols;; vs ← Matrix3.get_xyzt this; contents_all vs.

(** [M.xyz = vs] and [M.xyzt = vs; M.trans()], both followed by [M]. *)
Definition set_xyz_this (this : loc) (vs : list loc) : M T loc :=
  Matrix3.set_xyz this vs;; mret this.
Definition set_xyzt_this (this : loc) (vs : list loc) : M T loc :=
  Matrix3.set_xyzt this vs;; mret this.
Definition set_xyzt_trans (this : loc) (vs : list loc) : M T loc :=
  Matrix3.set_xyzt this vs;; Matrix3.trans this.

(** [M.trans().trans()] *)
Definition trans_twice (this : loc) : M T loc :=
  t ← Matrix3.trans this; Matrix3.trans t.

(** [M.transc().col(i)] *)
Definition transc_col (this : loc) (i : nat) : M T (list (option T)) :=
  t ← Matrix3.transc this; Matrix3.col t i.

(** [Matrix3.e(i, j).row(i)] *)
Definition e_row (i j : nat) : M T (list (option T)) :=
  m ← Matrix3.Static.e i j; Matrix3.row m i.

(** [A.prod(B).trans()] and [B.transc().prod(A.transc())] *)
Definition prod_trans (this m : loc) : M T loc :=
  p ← Matrix3.prod this m; Matrix3.trans p.
Definition trans_prod (this m : loc) : M T loc :=
  bt ← Matrix3.transc m; at' ← Matrix3.transc this; Matrix3.prod bt at'.

(** [M.prodc(N).det] and [M.transc().det] *)
Definition det_prod (this m : loc) : M T T :=
  p ← Matrix3.prodc this m; Matrix3.det p.
Definition det_trans (this : loc) : M T T :=
  t ← Matrix3.transc this; Matrix3.det t.

(** [M.prod(Matrix3.eye)] and [Matrix3.eye.prod(M)] *)
Definition prod_eye (this : loc) : M T loc :=
  e ← Matrix3.Static.eye; Matrix3.prod this e.
Definition eye_prod (this : loc) : M T loc :=
  e ← Matrix3.Static.eye; Matrix3.prod e this.

(** [M.inv().inv()]: the second call runs only if the first returned [M]. *)
Definition inv_twice (this : loc) : M T (option loc) :=
  i ← Matrix3.inv this; i ← deref i; Matrix3.inv i.

(** [M.add(N).sub(N)], [M.mul(s).div(s)], [M.neg().neg()] *)
Definition add_sub (this m : loc) : M T loc :=
  a ← Matrix3.add this m; Matrix3.sub a m.
Definition mul_div (this : loc) (s : T) : M T loc :=
  a ← Matrix3.mul this s; Matrix3.div a s.
Definition neg_neg (this : loc) : M T loc :=
  a ← Matrix3.neg this; Matrix3.neg a.

(** [M.prodc(N).at(u)] and [M.at(N.at(u))] *)
Definition prodc_at (this m u : loc) : M T loc :=
  p ← Matrix3.prodc this m; Matrix3.at_ p u.
Definition at_at (this m u : loc) : M T loc :=
  v ← Matrix3.at_ m u; Matrix3.at_ this v.

(** [M.dot(M) < epsilon2] and [M.equal(Matrix3.zeros)], next to [M.zero()] *)
Definition dot_self_small (this : loc) : M T bool :=
  d ← Matrix3.dot this this; mret (d <? epsilon2)%num.
Definition equal_zeros (this : loc) : M T bool :=
  z ← Matrix3.Static.zeros; Matrix3.equal this z.

(** [Matrix3.array2([M.row(0), M.row(1), M.row(2)])], and with columns *)
Definition rows_array2 (this : loc) : M T loc :=
  r0 ← Matrix3.row this 0; r1 ← Matrix3.row this 1; r2 ← Matrix3.row this 2;
  Matrix3.Static.array2 [r0; r1; r2].
Definition cols_array2 (this : loc) : M T loc :=
  c0 ← Matrix3.col this 0; c1 ← Matrix3.col this 1; c2 ← Matrix3.col this 2;
  Matrix3.Static.array2 [c0; c1; c2].

(** [Matrix3.xyz(M.xyz)] and [Matrix3.xyz(M.xyzt)] *)
Definition xyz_rebuild (this : loc) : M T loc :=
  vs ← Matrix3.get_xyz this; Matrix3.Static.xyz vs.
Definition xyzt_rebuild (this : loc) : M T loc :=
  vs ← Matrix3.get_xyzt this; Matrix3.Static.xyz vs.

(** [M.copy(N).equal(N)] *)
Definition copy_equal (this m : loc) : M T bool :=
  c ← Matrix3.copy this m; Matrix3.equal c m.

(** [A.prodc(B).prod(C)] and [A.prodc(B.prodc(C))] *)
Definition prod_left (this m n : loc) : M T loc :=
  p ← Matrix3.prodc this m; Matrix3.prod p n.
Definition prod_right (this m n : loc) : M T loc :=
  q ← Matrix3.prodc m n; Matrix3.prodc this q.

End MoreScenarios.

(** ** JavaScript's [Math] on binary64 *)

(** [Math.PI], and the correctly rounded cosine of the double
    [Math.PI / 2], about [6.123e-17]; its sine rounds to [1]. *)
Definition Math_PI : float := 0x1.921fb54442d18p+1%float.
Definition cos_half_pi : float := 0x1.1a62633145c07p-54%float.

(** ** Sample inputs *)

(** Concrete matrices and instances of the imported [Algebra], used to run
    the methods and to exercise the theorems below. *)
Module Samples.

#[local] Set Warnings "-inexact-float".

(** Tolerance [2^-104] (the square of the machine epsilon) and the
    Frobenius magnitude, on binary64. *)
Definition float_Algebra : Algebra float := {|
  epsilon2 := 0x1p-104%float;
  mag := fun b => PrimFloat.sqrt (foldr (fun x acc => x * x + acc)%float 0%float b)
|}.

(** A tolerance of [1/1000] on the rationals; no square roots there, so the
    magnitude is the squared one. *)
Definition Qc_Algebra : Algebra Qc := {|
  epsilon2 := Q2Qc (1 # 1000);
  mag := fun b => foldr (fun x acc => x * x + acc)%Qc 0%Qc b
|}.

(** [new Matrix3(1, 2, 3, 4, 5, 6, 7, 8, 9)]: singular, not symmetric. *)
Definition rows123 : list float :=
  mat3 1%float 2%float 3%float 4%float 5%float 6%float 7%float 8%float 9%float.

(** [new Matrix3(2, 0, 0, 0, 4, 0, 0, 0, 8)] *)
Definition diag248 : list float :=
  mat3 2%float 0%float 0%float 0%float 4%float 0%float 0%float 0%float 8%float.

(** [Matrix3.scalar(1e200)]: finite entries whose products overflow. *)
Definition huge : list float := scalar_matrix 1e200%float.

(** [new Matrix3(2e200, 1e200, 0, 1e200, 1e200, 0, 0, 0, 1e200)]: finite
    entries, and the determinant evaluates to [Infinity - Infinity]. *)
Definition overflowing : list float :=
  mat3 2e200%float 1e200%float 0%float 1e200%float 1e200%float 0%float
       0%float 0%float 1e200%float.

(** [new Matrix3(0, 1e200, 0, 0, 0, 0, 0, 0, 0)]: far from symmetric. *)
Definition lopsided : list float :=
  mat3 0%float 1e200%float 0%float 0%float 0%float 0%float 0%float 0%float 0%float.

(** [Matrix3.scalar(0.1 * 2 ** 250)], about [1.8e74]: its fourth power is
    finite, about [1.07e297]. *)
Definition scaled_tenth : list float := scalar_matrix 0x1.999999999999ap+246%float.

(** The rational matrix with rows [(2, 1, 0)], [(0, 1, 0)], [(0, 0, 1)]. *)
Definition shear : list Qc :=
  mat3 (Q2Qc 2) 1%Qc 0%Qc 0%Qc 1%Qc 0%Qc 0%Qc 0%Qc 1%Qc.

End Samples.

(** Further inputs: vectors on binary64, a matrix holding NaN, and a
    rational angle and axis. *)
Module Inputs.

(** [new Vector3(10, 20, 30)], [new Vector3(40, 50, 60)] and
    [new Vector3(70, 80, 90)] *)
Definition v123 : list float := [10; 20; 30]%float.
Definition v456 : list float := [40; 50; 60]%float.
Definition v789 : list float := [70; 80; 90]%float.

(** [rows123] and the three vectors, in one heap. *)
Definition matrix_and_vectors : heap float := [Samples.rows123; v123; v456; v789].

(** The identity matrix with [NaN] in its first entry. *)
Definition with_nan : list float :=
  mat3 nan 0%float 0%float 0%float 1%float 0%float 0%float 0%float 1%float.

(** The cosine [3/5] and the sine [4/5] of one angle, and the unit axis
    [(1/3, 2/3, 2/3)]. *)
Definition cos35 : Qc := Q2Qc (3 # 5).
Definition sin45 : Qc := Q2Qc (4 # 5).
Definition axis122 : list Qc := [Q2Qc (1 # 3); Q2Qc (2 # 3); Q2Qc (2 # 3)].

(** The rational vector [(1, 2, 3)]. *)
Definition q123 : list Qc := [1%Qc; Q2Qc 2; Q2Qc 3].

End Inputs.


(** ** Running computations *)

Section Run.
Context {T : Type} `{Number T}.

Lemma bind_run {A B} (c : M T A) (k : A -> M T B) h x h' r :
  c h = Some (x, h') -> k x h' = r -> (c ≫= k) h = r.
Proof. intros Hc Hk. unfold mbind, M_bind. rewrite Hc. exact Hk. Qed.

Lemma ret_run {A} (x : A) (h : heap T) : (mret x : M T A) h = Some (x, h).
Proof. reflexivity. Qed.

Lemma load_run a i (h : heap T) b :
  h !! a = Some b -> load a i h = Some (elem b i, h).
Proof. intros Hb. unfold load. rewrite Hb. reflexivity. Qed.

Lemma contents_run a (h : heap T) b :
  h !! a = Some b -> contents a h = Some (b, h).
Proof. intros Hb. unfold contents. rewrite Hb. reflexivity. Qed.

Lemma store_run a i v (h : heap T) b :
  h !! a = Some b -> store a i v h = Some (tt, <[a := <[i := v]> b]> h).
Proof. intros Hb. unfold store. rewrite Hb. reflexivity. Qed.

Lemma store_run_upd a i v (h : heap T) b :
  a < length h ->
  store a i v (<[a := b]> h) = Some (tt, <[a := <[i := v]> b]> h).
Proof.
  intros Ha. unfold store. rewrite list_lookup_insert_eq by exact Ha.
  cbn. rewrite list_insert_insert_eq. reflexivity.
Qed.

Lemma insert_last (h : heap T) b b' : <[length h := b']> (h ++ [b]) = h ++ [b'].
Proof.
  rewrite <- (Nat.add_0_r (length h)) at 1. rewrite insert_app_r. reflexivity.
Qed.

Lemma store_run_new i v (h : heap T) b :
  store (length h) i v (h ++ [b]) = Some (tt, h ++ [<[i := v]> b]).
Proof.
  unfold store. rewrite list_lookup_middle by reflexivity. cbn.
  rewrite insert_last. reflexivity.
Qed.

Lemma alloc_run n (h : heap T) :
  new_Float64Array n h = Some (length h, h ++ [replicate n n0]).
Proof. reflexivity. Qed.

End Run.

(** [lookup] finds an object in a heap that was updated or extended;
    [run] steps through the loads and stores of a method body. *)
Ltac lookup :=
  lazymatch goal with
  | |- (<[?a := _]> ?h) !! ?a = Some _ =>
      apply list_lookup_insert_eq; eapply lookup_lt_Some; eassumption
  | |- (<[?a := _]> ?h) !! ?m = Some _ =>
      rewrite list_lookup_insert_ne by congruence; eassumption
  | |- (?h ++ [_]) !! length ?h = Some _ =>
      apply list_lookup_middle; reflexivity
  | |- (?h ++ [_]) !! _ = Some _ =>
      apply lookup_app_l_Some; eassumption
  | |- _ => eassumption
  end.

Ltac run1 :=
  lazymatch goal with
  | |- mbind _ _ _ = _ =>
      eapply bind_run;
      [run1 | cbv beta;
       cbn [elem default from_option id lookup list_lookup insert list_insert]]
  | |- load _ _ _ = _ => apply load_run; lookup
  | |- contents _ _ = _ => apply contents_run; lookup
  | |- store (length ?h) _ _ (?h ++ [_]) = _ => apply store_run_new
  | |- store ?a _ _ (<[?a := _]> _) = _ =>
      apply store_run_upd; eapply lookup_lt_Some; eassumption
  | |- store _ _ _ _ = _ => eapply store_run; lookup
  | |- new_Float64Array _ _ = _ => apply alloc_run
  | |- mret _ _ = _ => apply ret_run
  end.

Ltac run := repeat run1.

(** A buffer of length 9 is its 9 elements. *)
Ltac mat9 A HA :=
  unfold is_Matrix3 in HA;
  do 9 (destruct A as [|? A]; [discriminate HA|]);
  destruct A; [clear HA | discriminate HA].

(** The receiver and an argument may be the same object. *)
Ltac alias m this HA HB :=
  destruct (decide (m = this)) as [->|?];
  [rewrite HA in HB; injection HB as <-|].

(** ** What each method does to the heap *)

Section Specs.
Context {T : Type} `{Number T} `{Algebra T}.

Lemma clone_of_id (A : list T) : is_Matrix3 A -> clone_of A = A.
Proof. intros LA. mat9 A LA. reflexivity. Qed.

Lemma Vector3_new_spec (h : heap T) x y z :
  Vector3.new x y z h = Some (length h, h ++ [[x; y; z]]).
Proof. unfold Vector3.new. run. Qed.

Lemma Matrix3_new_spec (h : heap T) xx xy xz yx yy yz zx zy zz :
  Matrix3.new xx xy xz yx yy yz zx zy zz h
  = Some (length h, h ++ [mat3 xx xy xz yx yy yz zx zy zz]).
Proof. unfold Matrix3.new. run. Qed.

Lemma Matrix3_clone_spec (h : heap T) this A :
  h !! this = Some A ->
  Matrix3.clone this h = Some (length h, h ++ [clone_of A]).
Proof.
  intros HA. unfold Matrix3.clone. run. apply Matrix3_new_spec.
Qed.

Lemma Matrix3_assign_spec (h : heap T) this A xx xy xz yx yy yz zx zy zz :
  h !! this = Some A -> is_Matrix3 A ->
  Matrix3.assign this xx xy xz yx yy yz zx zy zz h
  = Some (this, <[this := mat3 xx xy xz yx yy yz zx zy zz]> h).
Proof. intros HA LA. mat9 A LA. unfold Matrix3.assign. run. Qed.

Lemma Matrix3_fill_spec (h : heap T) this A s :
  h !! this = Some A -> is_Matrix3 A ->
  Matrix3.fill this s h = Some (this, <[this := fill_of s]> h).
Proof. intros HA LA. mat9 A LA. unfold Matrix3.fill. run. Qed.

Lemma Matrix3_norm_spec (h : heap T) this A :
  h !! this = Some A -> is_Matrix3 A ->
  Matrix3.norm this h = Some (this, <[this := norm_of A]> h).
Proof.
  intros HA LA. mat9 A LA.
  unfold Matrix3.norm, Matrix3.mag_of, div_assign. run.
Qed.

Lemma Matrix3_add_spec (h : heap T) this m A B :
  h !! this = Some A -> h !! m = Some B -> is_Matrix3 A ->
  Matrix3.add this m h = Some (this, <[this := add_of A B]> h).
Proof.
  intros HA HB LA. alias m this HA HB; mat9 A LA;
    unfold Matrix3.add, add_assign; run.
Qed.

Lemma Matrix3_sub_spec (h : heap T) this m A B :
  h !! this = Some A -> h !! m = Some B -> is_Matrix3 A ->
  Matrix3.sub this m h = Some (this, <[this := sub_of A B]> h).
Proof.
  intros HA HB LA. alias m this HA HB; mat9 A LA;
    unfold Matrix3.sub, sub_assign; run.
Qed.

Lemma Matrix3_neg_spec (h : heap T) this A :
  h !! this = Some A -> is_Matrix3 A ->
  Matrix3.neg this h = Some (this, <[this := neg_of A]> h).
Proof. intros HA LA. mat9 A LA. unfold Matrix3.neg, mul_assign. run. Qed.

Lemma Matrix3_mul_spec (h : heap T) this A s :
  h !! this = Some A -> is_Matrix3 A ->
  Matrix3.mul this s h = Some (this, <[this := mul_of A s]> h).
Proof. intros HA LA. mat9 A LA. unfold Matrix3.mul, mul_assign. run. Qed.

Lemma Matrix3_div_spec (h : heap T) this A s :
  h !! this = Some A -> is_Matrix3 A ->
  Matrix3.div this s h = Some (this, <[this := div_of A s]> h).
Proof. intros HA LA. mat9 A LA. unfold Matrix3.div, div_assign. run. Qed.

Lemma Matrix3_lerp_spec (h : heap T) this m A B t :
  h !! this = Some A -> h !! m = Some B -> is_Matrix3 A ->
  Matrix3.lerp this m t h = Some (this, <[this := lerp_of A B t]> h).
Proof.
  intros HA HB LA. alias m this HA HB; mat9 A LA;
    unfold Matrix3.lerp, Matrix3.lerp_rhs, add_assign; run.
Qed.

Lemma Matrix3_trans_spec (h : heap T) this A :
  h !! this = Some A -> is_Matrix3 A ->
  Matrix3.trans this h = Some (this, <[this := trans_of A]> h).
Proof. intros HA LA. mat9 A LA. unfold Matrix3.trans. run. Qed.

Lemma Matrix3_prod_spec (h : heap T) this m A B :
  h !! this = Some A -> h !! m = Some B -> is_Matrix3 A ->
  Matrix3.prod this m h = Some (this, <[this := prod_of A B]> h).
Proof. intros HA HB LA. mat9 A LA. unfold Matrix3.prod. run. Qed.

Lemma Matrix3_adj_spec (h : heap T) this A :
  h !! this = Some A -> is_Matrix3 A ->
  Matrix3.adj this h = Some (this, <[this := adj_of A]> h).
Proof. intros HA LA. mat9 A LA. unfold Matrix3.adj. run. Qed.

Lemma Matrix3_det_spec (h : heap T) this A :
  h !! this = Some A -> Matrix3.det this h = Some (det_of A, h).
Proof. intros HA. unfold Matrix3.det. run. Qed.

Lemma Matrix3_dist2_spec (h : heap T) this m A B :
  h !! this = Some A -> h !! m = Some B ->
  Matrix3.dist2 this m h = Some (dist2_of A B, h).
Proof. intros HA HB. unfold Matrix3.dist2. run. Qed.

Lemma Matrix3_equal_spec (h : heap T) this m A B :
  h !! this = Some A -> h !! m = Some B ->
  Matrix3.equal this m h = Some (equal_of A B, h).
Proof.
  intros HA HB. unfold Matrix3.equal.
  eapply bind_run; [apply Matrix3_dist2_spec; eassumption|]. reflexivity.
Qed.

Lemma Matrix3_inv_spec_singular (h : heap T) this A :
  h !! this = Some A -> falsy (det_of A) = true ->
  Matrix3.inv this h = Some (None, h).
Proof.
  intros HA Hd. unfold Matrix3.inv. run.
  unfold det_of in Hd. cbv zeta in *. rewrite Hd. reflexivity.
Qed.

Lemma Matrix3_inv_spec_regular (h : heap T) this A :
  h !! this = Some A -> is_Matrix3 A -> falsy (det_of A) = false ->
  Matrix3.inv this h = Some (Some this, <[this := inv_of A]> h).
Proof.
  intros HA LA Hd. mat9 A LA. unfold Matrix3.inv. run.
  unfold det_of in Hd. cbn [elem default from_option id lookup list_lookup] in Hd.
  cbv zeta in *. rewrite Hd. run.
Qed.

Lemma Matrix3_at_spec (h : heap T) this u A x y z :
  h !! this = Some A -> h !! u = Some [x; y; z] -> this <> u ->
  Matrix3.at_ this u h
  = Some (u, <[u := [ elem A 0 * x + elem A 3 * y + elem A 6 * z;
                      elem A 1 * x + elem A 4 * y + elem A 7 * z;
                      elem A 2 * x + elem A 5 * y + elem A 8 * z ]%num]> h).
Proof. intros HA Hu Hne. unfold Matrix3.at_. run. Qed.

Lemma Matrix3_array_spec (h : heap T) this A :
  h !! this = Some A -> Matrix3.array this h = Some (A, h).
Proof. intros HA. unfold Matrix3.array. run. Qed.

Lemma Static_array_spec (h : heap T) arr :
  Matrix3.Static.array arr h
  = Some (length h, h ++ [mat3 (elem arr 0) (elem arr 1) (elem arr 2)
                               (elem arr 3) (elem arr 4) (elem arr 5)
                               (elem arr 6) (elem arr 7) (elem arr 8)]).
Proof. apply Matrix3_new_spec. Qed.

Lemma Static_eye_spec (h : heap T) :
  Matrix3.Static.eye h = Some (length h, h ++ [identity]).
Proof. apply Matrix3_new_spec. Qed.

Lemma Static_scalar_spec (h : heap T) s :
  Matrix3.Static.scalar s h = Some (length h, h ++ [scalar_matrix s]).
Proof. apply Matrix3_new_spec. Qed.

Lemma Static_rotZ_spec (h : heap T) theta cos sin :
  Matrix3.Static.rotZ theta cos sin h
  = Some (length h, h ++ [mat3 (cos theta) (- sin theta)%num n0
                               (sin theta) (cos theta) n0 n0 n0 n1]).
Proof. apply Matrix3_new_spec. Qed.

(** *** Heaps before and after *)

Lemma modifies_only_insert (h : heap T) this b :
  modifies_only this h (<[this := b]> h).
Proof.
  split.
  - rewrite length_insert. reflexivity.
  - intros l _ Hl. apply list_lookup_insert_ne. congruence.
Qed.

Lemma modifies_only_refl (h : heap T) this : modifies_only this h h.
Proof. split; [reflexivity | tauto]. Qed.

Lemma modifies_only_trans (h1 h2 h3 : heap T) this :
  modifies_only this h1 h2 -> modifies_only this h2 h3 ->
  modifies_only this h1 h3.
Proof.
  intros [L12 F12] [L23 F23]. split; [lia|].
  intros l Hl Hne. rewrite F23 by (lia || exact Hne). apply F12; assumption.
Qed.

Lemma modifies_only_app (h : heap T) this b :
  modifies_only this h (h ++ [b]).
Proof.
  split.
  - rewrite length_app. lia.
  - intros l Hl _. apply lookup_app_l. exact Hl.
Qed.

Lemma preserves_app (h : heap T) b : preserves h (h ++ [b]).
Proof. intros l x Hx. apply lookup_app_l_Some. exact Hx. Qed.

Lemma modifies_only_fresh (h h' : heap T) b :
  modifies_only (length h) (h ++ [b]) h' -> preserves h h'.
Proof.
  intros [L F] l x Hx.
  assert (l < length h) by (eapply lookup_lt_Some; exact Hx).
  rewrite length_app in L. cbn in L.
  rewrite F; [apply lookup_app_l_Some; exact Hx | rewrite length_app; lia | lia].
Qed.

End Specs.

(** ** Clones, powers and the copying variants *)

Section Copies.
Context {T : Type} `{Number T} `{Algebra T}.

Lemma copying {R} (op : loc -> M T R) (h : heap T) this A r B :
  h !! this = Some A -> is_Matrix3 A ->
  op (length h) (h ++ [A]) = Some (r, <[length h := B]> (h ++ [A])) ->
  (c ← Matrix3.clone this; op c) h = Some (r, h ++ [B]).
Proof.
  intros HA LA Hop. eapply bind_run.
  - apply Matrix3_clone_spec. exact HA.
  - rewrite (clone_of_id A LA), Hop, insert_last. reflexivity.
Qed.

Lemma prod_of_is_Matrix3 (A B : list T) : is_Matrix3 (prod_of A B).
Proof. reflexivity. Qed.

Lemma rpow_of_is_Matrix3 depth : forall (A : list T) exp,
  is_Matrix3 A -> is_Matrix3 (rpow_of depth A exp).
Proof.
  induction depth as [|d IH]; intros A exp LA; cbn [rpow_of].
  - destruct (1 <? exp)%Z; exact LA.
  - destruct (1 <? exp)%Z; [|exact LA].
    destruct (exp mod 2 =? 0)%Z; [apply IH; reflexivity|].
    destruct (exp mod 2 =? 1)%Z; reflexivity.
Qed.

Lemma rpow_rec_spec depth : forall (h : heap T) this A exp,
  h !! this = Some A -> is_Matrix3 A -> (exp <= Z.of_nat depth)%Z ->
  exists h', Matrix3.rpow_rec depth this exp h = Some (tt, h')
    /\ h' !! this = Some (rpow_of depth A exp)
    /\ modifies_only this h h'.
Proof.
  induction depth as [|d IH]; intros h this A exp HA LA Hd; cbn [Matrix3.rpow_rec rpow_of].
  - destruct (Z.ltb_spec 1 exp) as [Hgt|Hle]; [lia|].
    exists h. split; [reflexivity|]. split; [exact HA | apply modifies_only_refl].
  - destruct (Z.ltb_spec 1 exp) as [Hgt|Hle].
    2:{ exists h. split; [reflexivity|]. split; [exact HA | apply modifies_only_refl]. }
    assert (Hthis : this < length h) by (eapply lookup_lt_Some; exact HA).
    pose (h2 := <[this := prod_of A A]> (h ++ [A])).
    assert (Hstart : forall k : loc -> M T unit,
      (copy ← Matrix3.clone this; Matrix3.prod this copy;; k copy) h = k (length h) h2).
    { intros k. eapply bind_run; [apply Matrix3_clone_spec; exact HA|].
      rewrite (clone_of_id A LA).
      eapply bind_run; [apply Matrix3_prod_spec; [lookup | lookup | exact LA]|].
      reflexivity. }
    assert (Hh2 : h2 !! this = Some (prod_of A A)).
    { apply list_lookup_insert_eq. rewrite length_app. lia. }
    assert (Hcopy : h2 !! length h = Some A).
    { subst h2. rewrite list_lookup_insert_ne by lia. lookup. }
    assert (M02 : modifies_only this h h2).
    { eapply modifies_only_trans; [apply modifies_only_app | apply modifies_only_insert]. }
    assert (L2 : length h2 = S (length h)).
    { subst h2. rewrite length_insert, length_app. cbn. lia. }
    clearbody h2.
    destruct (exp mod 2 =? 0)%Z eqn:Heven.
    + destruct (IH h2 this (prod_of A A) (exp / 2)%Z Hh2 (prod_of_is_Matrix3 A A))
        as (h' & Hrun & Hres & Hmod); [apply Z.div_le_upper_bound; lia|].
      exists h'. split; [rewrite Hstart; exact Hrun|]. split; [exact Hres|].
      eapply modifies_only_trans; eassumption.
    + destruct (exp mod 2 =? 1)%Z eqn:Hodd.
      * destruct (IH h2 this (prod_of A A) ((exp - 1) / 2)%Z Hh2 (prod_of_is_Matrix3 A A))
          as (h' & Hrun & Hres & Hmod); [apply Z.div_le_upper_bound; lia|].
        assert (Hc' : h' !! length h = Some A).
        { destruct Hmod as [_ F]. rewrite F; [exact Hcopy | lia | lia]. }
        exists (<[this := prod_of (rpow_of d (prod_of A A) ((exp - 1) / 2)) A]> h').
        split.
        { rewrite Hstart. eapply bind_run; [exact Hrun|].
          eapply bind_run; [apply Matrix3_prod_spec; [exact Hres | exact Hc' |]|reflexivity].
          apply rpow_of_is_Matrix3. reflexivity. }
        split.
        { apply list_lookup_insert_eq. eapply lookup_lt_Some; exact Hres. }
        eapply modifies_only_trans; [exact M02|].
        eapply modifies_only_trans; [exact Hmod | apply modifies_only_insert].
      * exists h2. split; [rewrite Hstart; reflexivity|]. split; [exact Hh2 | exact M02].
Qed.

Lemma inv_of_is_Matrix3 (A : list T) : is_Matrix3 (inv_of A).
Proof. reflexivity. Qed.

Lemma Matrix3_rpow_spec (h : heap T) this A exp :
  h !! this = Some A -> is_Matrix3 A ->
  exists h', Matrix3.rpow this exp h = Some (tt, h')
    /\ h' !! this = Some (rpow_of (Z.to_nat exp) A exp)
    /\ modifies_only this h h'.
Proof.
  intros HA LA. unfold Matrix3.rpow.
  destruct (Z.ltb_spec 1 exp) as [Hgt|Hle].
  - apply rpow_rec_spec; [exact HA | exact LA | lia].
  - exists h. destruct (Z.to_nat exp); cbn [Matrix3.rpow_rec rpow_of];
      (destruct (Z.ltb_spec 1 exp); [lia|]);
      (split; [reflexivity|]); (split; [exact HA | apply modifies_only_refl]).
Qed.

Lemma Matrix3_pow_spec (h : heap T) this A exp :
  h !! this = Some A -> is_Matrix3 A ->
  exists h', Matrix3.pow this exp h = Some (this, h')
    /\ h' !! this = Some (pow_of A exp)
    /\ modifies_only this h h'.
Proof.
  intros HA LA.
  assert (Hthis : this < length h) by (eapply lookup_lt_Some; exact HA).
  pose (A1 := if (exp <? 0)%Z then (if falsy (det_of A) then A else inv_of A) else A).
  pose (A2 := if (exp =? 0)%Z then identity else A1).
  assert (L1 : is_Matrix3 A1).
  { subst A1. destruct (exp <? 0)%Z; [|exact LA].
    destruct (falsy (det_of A)); [exact LA | reflexivity]. }
  assert (L2 : is_Matrix3 A2).
  { subst A2. destruct (exp =? 0)%Z; [reflexivity | exact L1]. }
  assert (S1 : (if (exp <? 0)%Z then Matrix3.inv this;; mret tt else mret tt) h
               = Some (tt, <[this := A1]> h)).
  { subst A1. destruct (exp <? 0)%Z.
    - destruct (falsy (det_of A)) eqn:Hd.
      + eapply bind_run; [eapply Matrix3_inv_spec_singular; eassumption|].
        cbv beta iota. rewrite (list_insert_id h this A HA). reflexivity.
      + eapply bind_run; [apply Matrix3_inv_spec_regular; eassumption|]. reflexivity.
    - rewrite (list_insert_id h this A HA). reflexivity. }
  assert (S2 : (if (exp =? 0)%Z
                then Matrix3.assign this n1 n0 n0 n0 n1 n0 n0 n0 n1;; mret tt
                else mret tt) (<[this := A1]> h) = Some (tt, <[this := A2]> h)).
  { subst A2. destruct (exp =? 0)%Z; [|reflexivity].
    eapply bind_run; [eapply Matrix3_assign_spec; [lookup | exact L1]|].
    rewrite list_insert_insert_eq. reflexivity. }
  destruct (Matrix3_rpow_spec (<[this := A2]> h) this A2 (Z.abs exp)) as (h' & Hrun & Hres & Hmod);
    [lookup | exact L2 |].
  exists h'. split.
  - unfold Matrix3.pow. eapply bind_run; [exact S1|].
    eapply bind_run; [exact S2|]. eapply bind_run; [exact Hrun|]. reflexivity.
  - split; [exact Hres|].
    eapply modifies_only_trans; [apply modifies_only_insert | exact Hmod].
Qed.

(** *** The copying variants *)

Lemma addc_spec (h : heap T) this m A B :
  h !! this = Some A -> h !! m = Some B -> is_Matrix3 A ->
  Matrix3.addc this m h = Some (length h, h ++ [add_of A B]).
Proof.
  intros HA HB LA. apply (copying (fun c => Matrix3.add c m) h this A); try assumption.
  apply Matrix3_add_spec; [lookup | lookup | exact LA].
Qed.

Lemma subc_spec (h : heap T) this m A B :
  h !! this = Some A -> h !! m = Some B -> is_Matrix3 A ->
  Matrix3.subc this m h = Some (length h, h ++ [sub_of A B]).
Proof.
  intros HA HB LA. apply (copying (fun c => Matrix3.sub c m) h this A); try assumption.
  apply Matrix3_sub_spec; [lookup | lookup | exact LA].
Qed.

Lemma negc_spec (h : heap T) this A :
  h !! this = Some A -> is_Matrix3 A ->
  Matrix3.negc this h = Some (length h, h ++ [neg_of A]).
Proof.
  intros HA LA. apply (copying Matrix3.neg h this A); try assumption.
  apply Matrix3_neg_spec; [lookup | exact LA].
Qed.

Lemma mulc_spec (h : heap T) this A s :
  h !! this = Some A -> is_Matrix3 A ->
  Matrix3.mulc this s h = Some (length h, h ++ [mul_of A s]).
Proof.
  intros HA LA. apply (copying (fun c => Matrix3.mul c s) h this A); try assumption.
  apply Matrix3_mul_spec; [lookup | exact LA].
Qed.

Lemma divc_spec (h : heap T) this A s :
  h !! this = Some A -> is_Matrix3 A ->
  Matrix3.divc this s h = Some (length h, h ++ [div_of A s]).
Proof.
  intros HA LA. apply (copying (fun c => Matrix3.div c s) h this A); try assumption.
  apply Matrix3_div_spec; [lookup | exact LA].
Qed.

Lemma lerpc_spec (h : heap T) this m A B t :
  h !! this = Some A -> h !! m = Some B -> is_Matrix3 A ->
  Matrix3.lerpc this m t h = Some (length h, h ++ [lerp_of A B t]).
Proof.
  intros HA HB LA. apply (copying (fun c => Matrix3.lerp c m t) h this A); try assumption.
  apply Matrix3_lerp_spec; [lookup | lookup | exact LA].
Qed.

Lemma fillc_spec (h : heap T) this A s :
  h !! this = Some A -> is_Matrix3 A ->
  Matrix3.fillc this s h = Some (length h, h ++ [fill_of s]).
Proof.
  intros HA LA. apply (copying (fun c => Matrix3.fill c s) h this A); try assumption.
  apply (Matrix3_fill_spec _ _ A); [lookup | exact LA].
Qed.

Lemma normc_spec (h : heap T) this A :
  h !! this = Some A -> is_Matrix3 A ->
  Matrix3.normc this h = Some (length h, h ++ [norm_of A]).
Proof.
  intros HA LA. apply (copying Matrix3.norm h this A); try assumption.
  apply Matrix3_norm_spec; [lookup | exact LA].
Qed.

Lemma transc_spec (h : heap T) this A :
  h !! this = Some A -> is_Matrix3 A ->
  Matrix3.transc this h = Some (length h, h ++ [trans_of A]).
Proof.
  intros HA LA. apply (copying Matrix3.trans h this A); try assumption.
  apply Matrix3_trans_spec; [lookup | exact LA].
Qed.

Lemma prodc_spec (h : heap T) this m A B :
  h !! this = Some A -> h !! m = Some B -> is_Matrix3 A ->
  Matrix3.prodc this m h = Some (length h, h ++ [prod_of A B]).
Proof.
  intros HA HB LA. apply (copying (fun c => Matrix3.prod c m) h this A); try assumption.
  apply Matrix3_prod_spec; [lookup | lookup | exact LA].
Qed.

Lemma adjc_spec (h : heap T) this A :
  h !! this = Some A -> is_Matrix3 A ->
  Matrix3.adjc this h = Some (length h, h ++ [adj_of A]).
Proof.
  intros HA LA. apply (copying Matrix3.adj h this A); try assumption.
  apply Matrix3_adj_spec; [lookup | exact LA].
Qed.

Lemma invc_spec_singular (h : heap T) this A :
  h !! this = Some A -> is_Matrix3 A -> falsy (det_of A) = true ->
  Matrix3.invc this h = Some (None, h ++ [A]).
Proof.
  intros HA LA Hd. eapply bind_run; [apply Matrix3_clone_spec; exact HA|].
  rewrite (clone_of_id A LA). eapply Matrix3_inv_spec_singular; [lookup | exact Hd].
Qed.

Lemma invc_spec_regular (h : heap T) this A :
  h !! this = Some A -> is_Matrix3 A -> falsy (det_of A) = false ->
  Matrix3.invc this h = Some (Some (length h), h ++ [inv_of A]).
Proof.
  intros HA LA Hd. apply (copying Matrix3.inv h this A); try assumption.
  apply Matrix3_inv_spec_regular; [lookup | exact LA | exact Hd].
Qed.

Lemma powc_spec (h : heap T) this A exp :
  h !! this = Some A -> is_Matrix3 A ->
  exists h', Matrix3.powc this exp h = Some (length h, h')
    /\ h' !! length h = Some (pow_of A exp)
    /\ preserves h h'.
Proof.
  intros HA LA.
  destruct (Matrix3_pow_spec (h ++ [A]) (length h) A exp) as (h' & Hrun & Hres & Hmod);
    [lookup | exact LA |].
  exists h'. split.
  - eapply bind_run; [apply Matrix3_clone_spec; exact HA|].
    rewrite (clone_of_id A LA). exact Hrun.
  - split; [exact Hres|]. eapply modifies_only_fresh. exact Hmod.
Qed.

End Copies.

(** ** Algebra of the values *)

Lemma cons_eq {A} (x y : A) l l' : x = y -> l = l' -> x :: l = y :: l'.
Proof. congruence. Qed.

(** Arithmetic with [/ 2] and [mod 2]; unfolding to the 9 entries; one
    goal per entry. *)
Ltac div_lia := Z.to_euclidean_division_equations; lia.

Ltac entries :=
  unfold matmul, of_entries, entry, identity, scalar_matrix, prod_of, adj_of,
    inv_of, det_of;
  unfold mat3;
  cbn [Nat.mul Nat.add elem default from_option id lookup list_lookup].

Ltac each_entry tac := repeat (apply cons_eq; [tac|]); try reflexivity.

Section Commutative.
Context {T : Type} `{Number T} `{!MulComm T}.

Lemma prod_of_matmul (A B : list T) : prod_of A B = matmul A B.
Proof.
  unfold prod_of, matmul, of_entries, mat3, entry. cbn [Nat.mul Nat.add].
  cbv zeta. rewrite !(mul_comm (elem B _) (elem A _)). reflexivity.
Qed.

End Commutative.

Section Exact.
Context {T : Type} `{Number T} `{Algebra T} `{!ExactNumber T}.

Add Field exact_arith : exact_field.

#[export] Instance exact_MulComm : MulComm T.
Proof. intros x y. ring. Qed.

Lemma falsy_exact (x : T) : falsy x = true <-> x = n0.
Proof.
  unfold falsy. rewrite exact_no_nan, orb_false_r. apply exact_eq.
Qed.

Lemma falsy_exact_false (x : T) : falsy x = false <-> x <> n0.
Proof.
  rewrite <- falsy_exact. destruct (falsy x); split; congruence.
Qed.

Lemma matmul_assoc (A B C : list T) :
  matmul (matmul A B) C = matmul A (matmul B C).
Proof. entries. each_entry ltac:(ring). Qed.

Lemma matmul_identity_r (A : list T) : is_Matrix3 A -> matmul A identity = A.
Proof. intros LA. mat9 A LA. entries. each_entry ltac:(ring). Qed.

Lemma matmul_identity_l (A : list T) : is_Matrix3 A -> matmul identity A = A.
Proof. intros LA. mat9 A LA. entries. each_entry ltac:(ring). Qed.

Lemma mpow_is_Matrix3 (A : list T) n : is_Matrix3 A -> is_Matrix3 (mpow A n).
Proof. intros LA. destruct n as [|[|n]]; [reflexivity | exact LA | reflexivity]. Qed.

Lemma mpow_S (A : list T) n : is_Matrix3 A -> mpow A (S n) = matmul (mpow A n) A.
Proof.
  intros LA. destruct n; [|reflexivity].
  cbn [mpow]. symmetry. apply matmul_identity_l. exact LA.
Qed.

Lemma mpow_add (A : list T) a b :
  is_Matrix3 A -> mpow A (a + b) = matmul (mpow A a) (mpow A b).
Proof.
  intros LA. induction b as [|b IH].
  - rewrite Nat.add_0_r. symmetry. apply matmul_identity_r, mpow_is_Matrix3, LA.
  - rewrite Nat.add_succ_r, !mpow_S, IH, matmul_assoc by exact LA. reflexivity.
Qed.

Lemma mpow_mul (A : list T) a b :
  is_Matrix3 A -> mpow (mpow A a) b = mpow A (a * b).
Proof.
  intros LA. induction b as [|b IH].
  - rewrite Nat.mul_0_r. reflexivity.
  - rewrite mpow_S, IH by (apply mpow_is_Matrix3, LA).
    rewrite Nat.mul_succ_r, mpow_add by exact LA. reflexivity.
Qed.

Lemma mpow_2 (A : list T) : mpow A 2 = prod_of A A.
Proof. rewrite prod_of_matmul. reflexivity. Qed.

Lemma rpow_of_mpow depth : forall (A : list T) exp,
  is_Matrix3 A -> (1 <= exp)%Z -> (exp <= Z.of_nat depth)%Z ->
  rpow_of depth A exp = mpow A (Z.to_nat exp).
Proof.
  induction depth as [|d IH]; intros A exp LA H1 Hd; [lia|].
  cbn [rpow_of]. destruct (Z.ltb_spec 1 exp) as [Hgt|Hle].
  2:{ replace exp with 1%Z by lia. reflexivity. }
  destruct (Z.eqb_spec (exp mod 2) 0) as [Heven|Hodd].
  - rewrite IH; [| reflexivity | div_lia | div_lia].
    rewrite <- mpow_2, mpow_mul by exact LA. f_equal. div_lia.
  - destruct (Z.eqb_spec (exp mod 2) 1) as [Hone|Hnone]; [|div_lia].
    rewrite IH; [| reflexivity | div_lia | div_lia].
    rewrite <- mpow_2, mpow_mul, prod_of_matmul, <- mpow_S by exact LA.
    f_equal. div_lia.
Qed.

Lemma pow_of_mpow (A : list T) n :
  is_Matrix3 A -> (0 <= n)%Z -> pow_of A n = mpow A (Z.to_nat n).
Proof.
  intros LA Hn. unfold pow_of.
  destruct (Z.ltb_spec n 0) as [?|_]; [lia|].
  destruct (Z.eqb_spec n 0) as [->|Hnz].
  - reflexivity.
  - rewrite Z.abs_eq by exact Hn. apply rpow_of_mpow; [exact LA | lia | lia].
Qed.

Lemma adjugate_identity (A : list T) :
  prod_of A (adj_of A) = scalar_matrix (det_of A).
Proof. entries. each_entry ltac:(ring). Qed.

Lemma inverse_right (A : list T) :
  is_Matrix3 A -> det_of A <> n0 -> matmul A (inv_of A) = identity.
Proof.
  intros LA Hd. mat9 A LA. revert Hd. entries. intros Hd.
  each_entry ltac:(field; exact Hd).
Qed.

Lemma inverse_left (A : list T) :
  is_Matrix3 A -> det_of A <> n0 -> matmul (inv_of A) A = identity.
Proof.
  intros LA Hd. mat9 A LA. revert Hd. entries. intros Hd.
  each_entry ltac:(field; exact Hd).
Qed.

Lemma dist2_of_same (A : list T) : dist2_of A A = n0.
Proof. unfold dist2_of. ring. Qed.

Lemma equal_of_same (A : list T) :
  (n0 <? epsilon2)%num = true -> equal_of A A = true.
Proof. intros He. unfold equal_of. rewrite dist2_of_same. exact He. Qed.

End Exact.

(** ** The two arithmetics *)

Lemma float_mul_comm (x y : float) : (x * y)%float = (y * x)%float.
Proof.
  apply Prim2SF_inj. rewrite !FloatAxioms.mul_spec.
  destruct (Prim2SF x) as [sx|sx| |sx mx ex], (Prim2SF y) as [sy|sy| |sy my ey];
    cbn; try reflexivity; rewrite ?(xorb_comm sx sy); try reflexivity.
  rewrite (Pos.mul_comm mx my), (Z.add_comm ex ey). reflexivity.
Qed.

#[export] Instance float_MulComm : MulComm float := float_mul_comm.

Lemma float_lt_nan (x : float) : (nan <? x)%float = false.
Proof. rewrite ltb_spec. reflexivity. Qed.

Lemma float_lt_infinity (x : float) : (infinity <? x)%float = false.
Proof.
  rewrite ltb_spec. change (Prim2SF infinity) with (S754_infinity false).
  destruct (Prim2SF x) as [| [|] | |]; reflexivity.
Qed.

Lemma Qc_field : field_theory 0%Qc 1%Qc Qcplus Qcmult Qcminus Qcopp Qcdiv (Qcdiv 1%Qc) eq.
Proof.
  constructor.
  - exact Qcrt.
  - discriminate.
  - intros p q. unfold Qcdiv. rewrite Qcmult_1_l. reflexivity.
  - intros p Hp. unfold Qcdiv. rewrite Qcmult_1_l. apply Qcmult_inv_l. exact Hp.
Qed.

#[export] Instance Qc_ExactNumber : ExactNumber Qc.
Proof.
  constructor.
  - exact Qc_field.
  - intros x y. change (x == y)%num with (Qc_eq_bool x y). split.
    + apply Qc_eq_bool_correct.
    + intros ->. unfold Qc_eq_bool. destruct (Qcanon.Qc_eq_dec y y) as [_|n]; [reflexivity | destruct n; reflexivity].
  - reflexivity.
Qed.

(** ** Auxiliary facts for the claims *)

Section Auxiliary.
Context {T : Type} `{Number T} `{Algebra T}.

Lemma result_run {A} (c : M T A) (h h' : heap T) x :
  c h = Some (x, h') -> result c h = Some x.
Proof. intros Hc. unfold result. rewrite Hc. reflexivity. Qed.

Lemma mutates_to_insert (c : M T loc) (h : heap T) this A R :
  h !! this = Some A -> c h = Some (this, <[this := R]> h) -> mutates_to c this R h.
Proof.
  intros HA Hc. exists (<[this := R]> h). split; [exact Hc|]. split.
  - apply list_lookup_insert_eq. eapply lookup_lt_Some. exact HA.
  - apply modifies_only_insert.
Qed.

Lemma copies_to_app (c : M T loc) (h : heap T) this A R :
  h !! this = Some A -> c h = Some (length h, h ++ [R]) -> copies_to c this A R h.
Proof.
  intros HA Hc. exists (length h), (h ++ [R]). split; [exact Hc|].
  split; [reflexivity|]. split; [lookup|]. split; [lookup | apply preserves_app].
Qed.

Lemma trans_of_transpose (A : list T) : trans_of A = transpose A.
Proof. reflexivity. Qed.

Lemma transpose_involutive (A : list T) :
  is_Matrix3 A -> transpose (transpose A) = A.
Proof. intros LA. mat9 A LA. reflexivity. Qed.

Lemma transpose_fixed (A : list T) :
  is_Matrix3 A -> transpose A = A <-> symmetric A.
Proof.
  intros LA. mat9 A LA. unfold symmetric, transpose, of_entries, mat3, entry.
  cbn [Nat.mul Nat.add elem default from_option id lookup list_lookup].
  split.
  - intros E. injection E as E1 E2 E3 E4 E5 E6. auto.
  - intros (E1 & E2 & E3). congruence.
Qed.

Lemma pow_of_is_Matrix3 (A : list T) n : is_Matrix3 A -> is_Matrix3 (pow_of A n).
Proof.
  intros LA. unfold pow_of. apply rpow_of_is_Matrix3.
  destruct (n =? 0)%Z; [reflexivity|].
  destruct (n <? 0)%Z; [|exact LA].
  destruct (falsy (det_of A)); [exact LA | reflexivity].
Qed.

Lemma pow_of_0 (A : list T) : pow_of A 0 = identity.
Proof. reflexivity. Qed.

Lemma pow_sum_spec (h : heap T) this A a b :
  h !! this = Some A -> is_Matrix3 A ->
  exists r s h', pow_sum this a b h = Some ((r, s), h')
    /\ h' !! r = Some (prod_of (pow_of A a) (pow_of A b))
    /\ h' !! s = Some (pow_of A (a + b))
    /\ h' !! this = Some A.
Proof.
  intros HA LA.
  assert (Hthis : this < length h) by (eapply lookup_lt_Some; exact HA).
  destruct (powc_spec h this A a HA LA) as (h1 & R1 & P1 & F1).
  assert (Hp : length h < length h1) by (eapply lookup_lt_Some; exact P1).
  destruct (powc_spec h1 this A b (F1 _ _ HA) LA) as (h2 & R2 & P2 & F2).
  pose proof (Matrix3_prod_spec h2 (length h) (length h1) _ _
                (F2 _ _ P1) P2 (pow_of_is_Matrix3 A a LA)) as R3.
  set (h3 := <[length h := prod_of (pow_of A a) (pow_of A b)]> h2) in R3.
  assert (H3 : h3 !! this = Some A).
  { subst h3. rewrite list_lookup_insert_ne by lia. apply F2, F1, HA. }
  assert (P3 : h3 !! length h = Some (prod_of (pow_of A a) (pow_of A b))).
  { subst h3. apply list_lookup_insert_eq. eapply lookup_lt_Some. apply F2, P1. }
  destruct (powc_spec h3 this A (a + b) H3 LA) as (h4 & R4 & P4 & F4).
  exists (length h), (length h3), h4. split.
  - unfold pow_sum. eapply bind_run; [exact R1|]. eapply bind_run; [exact R2|].
    eapply bind_run; [exact R3|]. eapply bind_run; [exact R4|]. reflexivity.
  - split; [apply F4, P3|]. split; [exact P4 | apply F4, H3].
Qed.

Lemma Vector3_equal_spec (h : heap T) a b A B :
  h !! a = Some A -> h !! b = Some B ->
  Vector3.equal a b h
  = Some (((elem A 0 - elem B 0) * (elem A 0 - elem B 0)
           + (elem A 1 - elem B 1) * (elem A 1 - elem B 1)
           + (elem A 2 - elem B 2) * (elem A 2 - elem B 2) <? epsilon2)%num, h).
Proof. intros HA HB. unfold Vector3.equal, Vector3.dist2. run. Qed.

Lemma set_get_x_spec (h : heap T) this v A x y z :
  h !! this = Some A -> is_Matrix3 A -> h !! v = Some [x; y; z] -> v <> this ->
  result (r ← set_get_x this v; contents r) h = Some [x; elem A 1; elem A 2].
Proof.
  intros HA LA Hv Hne. mat9 A LA. eapply result_run.
  unfold set_get_x, Matrix3.set_x, Matrix3.get_x, Vector3.new. run.
Qed.

Lemma set_get_y_spec (h : heap T) this v A x y z :
  h !! this = Some A -> is_Matrix3 A -> h !! v = Some [x; y; z] -> v <> this ->
  result (r ← set_get_y this v; contents r) h = Some [elem A 3; y; elem A 5].
Proof.
  intros HA LA Hv Hne. mat9 A LA. eapply result_run.
  unfold set_get_y, Matrix3.set_y, Matrix3.get_y, Vector3.new. run.
Qed.

Lemma set_get_z_spec (h : heap T) this v A x y z :
  h !! this = Some A -> is_Matrix3 A -> h !! v = Some [x; y; z] -> v <> this ->
  result (r ← set_get_z this v; contents r) h = Some [elem A 6; elem A 7; z].
Proof.
  intros HA LA Hv Hne. mat9 A LA. eapply result_run.
  unfold set_get_z, Matrix3.set_z, Matrix3.get_z, Vector3.new. run.
Qed.

End Auxiliary.

Lemma shear_regular : det_of Samples.shear <> n0.
Proof.
  intros E. apply (f_equal Qcanon.this) in E. vm_compute in E. discriminate E.
Qed.

(** ** The claims *)

Section Claims.
Context {T : Type} `{Number T} `{Algebra T}.

(** C1, as amended.  [M.det] is the cofactor expansion [det_of M], and
    reading it mutates nothing.  [M.inv()] yields [undefined] exactly when
    that determinant is [0] or [NaN] (JavaScript's [!det]), and then no
    entry of [M] has been written.  Otherwise [inv()] overwrites [M] with
    the adjugate formula scaled by [1 / det] and returns [M]; in exact
    arithmetic that matrix is the inverse of [M] on both sides. *)
Theorem inv_contract (h : heap T) (this : loc) (A : list T) :
  h !! this = Some A -> is_Matrix3 A ->
  Matrix3.det this h = Some (det_of A, h)
  /\ (result (Matrix3.inv this) h = Some None
      <-> (det_of A == n0)%num = true \/ nisnan (det_of A) = true)
  /\ (result (Matrix3.inv this) h = Some None ->
      Matrix3.inv this h = Some (None, h))
  /\ (result (Matrix3.inv this) h <> Some None ->
      Matrix3.inv this h = Some (Some this, <[this := inv_of A]> h))
  /\ (ExactNumber T -> det_of A <> n0 ->
      matmul A (inv_of A) = identity /\ matmul (inv_of A) A = identity).
Proof.
  intros HA LA. split; [apply Matrix3_det_spec; exact HA|].
  assert (Hcases : falsy (det_of A) = true /\ Matrix3.inv this h = Some (None, h)
            \/ falsy (det_of A) = false
               /\ Matrix3.inv this h = Some (Some this, <[this := inv_of A]> h)).
  { destruct (falsy (det_of A)) eqn:Hd; [left | right]; split; try reflexivity.
    - eapply Matrix3_inv_spec_singular; eassumption.
    - apply Matrix3_inv_spec_regular; assumption. }
  unfold falsy in Hcases. rewrite orb_true_iff, orb_false_iff in Hcases.
  split; [|split; [|split]].
  - destruct Hcases as [[Hd Hrun]|[[Hz Hn] Hrun]]; unfold result; rewrite Hrun; cbn.
    + tauto.
    + split; [discriminate|]. intros [E|E]; congruence.
  - destruct Hcases as [[_ Hrun]|[_ Hrun]]; unfold result; rewrite Hrun; cbn;
      [reflexivity | discriminate].
  - destruct Hcases as [[_ Hrun]|[_ Hrun]]; unfold result; rewrite Hrun; cbn;
      [congruence | reflexivity].
  - intros Ex Hd. split; [apply inverse_right | apply inverse_left]; assumption.
Qed.

(** C2.  For all matrices [A] and [B], [A.prod(B)] returns [A] and leaves
    in it the matrix product [A x B], whose entry [(i, j)] is the sum over
    [k] of [A(i,k) * B(k,j)]; no other object changes.  The argument may be
    the receiver itself: [A.prod(A)] leaves [A x A], because all 18 reads
    come before the first write. *)
Theorem prod_is_matrix_product `{!MulComm T} (h : heap T) (this m : loc) (A B : list T) :
  h !! this = Some A -> h !! m = Some B -> is_Matrix3 A -> is_Matrix3 B ->
  Matrix3.prod this m h = Some (this, <[this := matmul A B]> h)
  /\ (forall i j, i < 3 -> j < 3 ->
        entry (matmul A B) i j
        = (entry A i 0 * entry B 0 j + entry A i 1 * entry B 1 j
           + entry A i 2 * entry B 2 j)%num)
  /\ (m = this -> Matrix3.prod this this h = Some (this, <[this := matmul A A]> h)).
Proof.
  intros HA HB LA LB.
  assert (Hrun : Matrix3.prod this m h = Some (this, <[this := matmul A B]> h)).
  { rewrite <- prod_of_matmul. apply Matrix3_prod_spec; assumption. }
  split; [exact Hrun|]. split.
  - intros i j Hi Hj.
    destruct i as [|[|[|i]]]; [| | |lia]; destruct j as [|[|[|j]]]; try lia; reflexivity.
  - intros ->. rewrite HA in HB. injection HB as <-. exact Hrun.
Qed.

(** C3, as amended.  [M.pow(0)] leaves the identity in [M], for every [M]
    and in any arithmetic.  In exact arithmetic, for every integer [n >= 0],
    [M.pow(n)] leaves in [M] the [n]-fold product [M * M * ... * M], and for
    [a, b >= 0] the matrices [M.powc(a).prod(M.powc(b))] and
    [M.powc(a + b)] have the same entries, those of the [(a+b)]-fold
    product, so that [equal] accepts them for any positive tolerance. *)
Theorem pow_exact (h : heap T) (this : loc) (A : list T) :
  h !! this = Some A -> is_Matrix3 A ->
  mutates_to (Matrix3.pow this 0) this identity h
  /\ (ExactNumber T -> forall n, (0 <= n)%Z ->
      mutates_to (Matrix3.pow this n) this (mpow A (Z.to_nat n)) h)
  /\ (ExactNumber T -> forall a b, (0 <= a)%Z -> (0 <= b)%Z ->
      exists r s h', pow_sum this a b h = Some ((r, s), h')
        /\ h' !! r = Some (mpow A (Z.to_nat (a + b)))
        /\ h' !! s = Some (mpow A (Z.to_nat (a + b)))
        /\ h' !! this = Some A)
  /\ (ExactNumber T -> (n0 <? epsilon2)%num = true ->
      forall a b, (0 <= a)%Z -> (0 <= b)%Z ->
      result (pow_sum_equal this a b) h = Some true).
Proof.
  intros HA LA.
  assert (Hsum : ExactNumber T -> forall a b, (0 <= a)%Z -> (0 <= b)%Z ->
      exists r s h', pow_sum this a b h = Some ((r, s), h')
        /\ h' !! r = Some (mpow A (Z.to_nat (a + b)))
        /\ h' !! s = Some (mpow A (Z.to_nat (a + b)))
        /\ h' !! this = Some A).
  { intros Ex a b Ha Hb.
    destruct (pow_sum_spec h this A a b HA LA) as (r & s & h' & Hrun & Hr & Hs & Hthis).
    exists r, s, h'. split; [exact Hrun|].
    rewrite prod_of_matmul, !pow_of_mpow in Hr by (assumption || lia).
    rewrite <- mpow_add, <- Z2Nat.inj_add in Hr by assumption.
    rewrite pow_of_mpow in Hs by (assumption || lia). auto. }
  split; [|split; [|split]].
  - rewrite <- (pow_of_0 A). apply Matrix3_pow_spec; assumption.
  - intros Ex n Hn. rewrite <- pow_of_mpow by assumption.
    apply Matrix3_pow_spec; assumption.
  - exact Hsum.
  - intros Ex He a b Ha Hb.
    destruct (Hsum Ex a b Ha Hb) as (r & s & h' & Hrun & Hr & Hs & _).
    apply (result_run _ h h'). unfold pow_sum_equal.
    eapply bind_run; [exact Hrun|]. cbn [fst snd].
    rewrite (Matrix3_equal_spec h' r s _ _ Hr Hs), equal_of_same by exact He.
    reflexivity.
Qed.

(** C4, as amended.  [Matrix3.array(M.array())] is a new matrix holding the
    transpose of [M], the same 9 numbers as [M.transc()]: its entry
    [(i, j)] is the entry [(j, i)] of [M].  It has the entries of [M]
    exactly when [M] is symmetric, and transposing twice gives [M] back.
    [M] itself is left unchanged. *)
Theorem array_roundtrip_transposes (h : heap T) (this : loc) (A : list T) :
  h !! this = Some A -> is_Matrix3 A ->
  copies_to (array_roundtrip this) this A (transpose A) h
  /\ copies_to (Matrix3.transc this) this A (transpose A) h
  /\ (forall i j, i < 3 -> j < 3 -> entry (transpose A) i j = entry A j i)
  /\ (transpose A = A <-> symmetric A)
  /\ transpose (transpose A) = A.
Proof.
  intros HA LA. split; [|split; [|split; [|split]]].
  - apply copies_to_app; [exact HA|]. unfold array_roundtrip.
    eapply bind_run; [apply Matrix3_array_spec; exact HA|].
    rewrite Static_array_spec. reflexivity.
  - apply copies_to_app; [exact HA|]. rewrite <- trans_of_transpose.
    apply transc_spec; assumption.
  - intros i j Hi Hj.
    destruct i as [|[|[|i]]]; [| | |lia]; destruct j as [|[|[|j]]]; try lia; reflexivity.
  - apply transpose_fixed. exact LA.
  - apply transpose_involutive. exact LA.
Qed.

(** C6, as amended.  In exact arithmetic, for every matrix [M] with a
    nonzero determinant, [M.prodc(M.invc())] and [M.invc().prod(M)] are new
    matrices holding exactly the entries of the identity, [M] is left
    unchanged, and [equal(Matrix3.eye)] accepts both for any positive
    tolerance. *)
Theorem inverse_products_exact `{!ExactNumber T} (h : heap T) (this : loc) (A : list T) :
  h !! this = Some A -> is_Matrix3 A -> det_of A <> n0 ->
  copies_to (right_inverse this) this A identity h
  /\ copies_to (left_inverse this) this A identity h
  /\ ((n0 <? epsilon2)%num = true ->
      result (right_inverse_equal this) h = Some true
      /\ result (left_inverse_equal this) h = Some true).
Proof.
  intros HA LA Hd.
  assert (Hf : falsy (det_of A) = false) by (apply falsy_exact_false; exact Hd).
  pose proof (invc_spec_regular h this A HA LA Hf) as Hinv.
  assert (Hright : right_inverse this h
            = Some (S (length h), (h ++ [inv_of A]) ++ [identity])).
  { unfold right_inverse. eapply bind_run; [exact Hinv|].
    eapply bind_run; [reflexivity|].
    rewrite <- (inverse_right A LA Hd), <- prod_of_matmul.
    replace (S (length h)) with (length (h ++ [inv_of A]))
      by (rewrite length_app; cbn; lia).
    apply prodc_spec; [lookup | lookup | exact LA]. }
  assert (Hleft : left_inverse this h = Some (length h, h ++ [identity])).
  { unfold left_inverse. eapply bind_run; [exact Hinv|].
    eapply bind_run; [reflexivity|].
    rewrite (Matrix3_prod_spec (h ++ [inv_of A]) (length h) this (inv_of A) A);
      [| lookup | lookup | reflexivity].
    rewrite insert_last, prod_of_matmul, inverse_left by assumption. reflexivity. }
  split; [|split].
  - exists (S (length h)), ((h ++ [inv_of A]) ++ [identity]).
    split; [exact Hright|]. split; [lia|]. split.
    { apply list_lookup_middle. rewrite length_app. cbn. lia. }
    split; [apply lookup_app_l_Some, lookup_app_l_Some, HA|].
    intros l b Hl. apply lookup_app_l_Some, lookup_app_l_Some, Hl.
  - apply copies_to_app; assumption.
  - intros He. split.
    + eapply result_run. unfold right_inverse_equal.
      eapply bind_run; [exact Hright|].
      eapply bind_run; [apply Static_eye_spec|].
      erewrite Matrix3_equal_spec.
      * rewrite equal_of_same by exact He. reflexivity.
      * apply lookup_app_l_Some, list_lookup_middle. rewrite length_app. cbn. lia.
      * apply list_lookup_middle. reflexivity.
    + eapply result_run. unfold left_inverse_equal.
      eapply bind_run; [exact Hleft|].
      eapply bind_run; [apply Static_eye_spec|].
      erewrite Matrix3_equal_spec.
      * rewrite equal_of_same by exact He. reflexivity.
      * apply lookup_app_l_Some, list_lookup_middle. reflexivity.
      * apply list_lookup_middle. reflexivity.
Qed.

(** C7.  For each of [add], [sub], [neg], [mul], [div], [lerp], [fill],
    [norm], [trans], [prod], [adj], [pow] and [inv]: the mutating method
    turns its receiver [M] into some value, and the copying variant
    returns a new object holding that same value while every entry of [M]
    (and of every other existing object) stays as it was.  When [inv]
    yields [undefined], so does [invc], and [M] is untouched. *)
Theorem copying_variants (h : heap T) (this m : loc) (A B : list T) (s t : T) (n : Z) :
  h !! this = Some A -> h !! m = Some B -> is_Matrix3 A -> is_Matrix3 B ->
  (mutates_to (Matrix3.add this m) this (add_of A B) h
   /\ copies_to (Matrix3.addc this m) this A (add_of A B) h)
  /\ (mutates_to (Matrix3.sub this m) this (sub_of A B) h
      /\ copies_to (Matrix3.subc this m) this A (sub_of A B) h)
  /\ (mutates_to (Matrix3.neg this) this (neg_of A) h
      /\ copies_to (Matrix3.negc this) this A (neg_of A) h)
  /\ (mutates_to (Matrix3.mul this s) this (mul_of A s) h
      /\ copies_to (Matrix3.mulc this s) this A (mul_of A s) h)
  /\ (mutates_to (Matrix3.div this s) this (div_of A s) h
      /\ copies_to (Matrix3.divc this s) this A (div_of A s) h)
  /\ (mutates_to (Matrix3.lerp this m t) this (lerp_of A B t) h
      /\ copies_to (Matrix3.lerpc this m t) this A (lerp_of A B t) h)
  /\ (mutates_to (Matrix3.fill this s) this (fill_of s) h
      /\ copies_to (Matrix3.fillc this s) this A (fill_of s) h)
  /\ (mutates_to (Matrix3.norm this) this (norm_of A) h
      /\ copies_to (Matrix3.normc this) this A (norm_of A) h)
  /\ (mutates_to (Matrix3.trans this) this (trans_of A) h
      /\ copies_to (Matrix3.transc this) this A (trans_of A) h)
  /\ (mutates_to (Matrix3.prod this m) this (prod_of A B) h
      /\ copies_to (Matrix3.prodc this m) this A (prod_of A B) h)
  /\ (mutates_to (Matrix3.adj this) this (adj_of A) h
      /\ copies_to (Matrix3.adjc this) this A (adj_of A) h)
  /\ (mutates_to (Matrix3.pow this n) this (pow_of A n) h
      /\ copies_to (Matrix3.powc this n) this A (pow_of A n) h)
  /\ (if falsy (det_of A)
      then Matrix3.inv this h = Some (None, h)
           /\ Matrix3.invc this h = Some (None, h ++ [A])
      else mutates_to (r ← Matrix3.inv this; deref r) this (inv_of A) h
           /\ copies_to (r ← Matrix3.invc this; deref r) this A (inv_of A) h).
Proof.
  intros HA HB LA LB.
  repeat match goal with |- _ /\ _ => split end.
  - eapply mutates_to_insert; [exact HA | apply Matrix3_add_spec; assumption].
  - eapply copies_to_app; [exact HA | apply addc_spec; assumption].
  - eapply mutates_to_insert; [exact HA | apply Matrix3_sub_spec; assumption].
  - eapply copies_to_app; [exact HA | apply subc_spec; assumption].
  - eapply mutates_to_insert; [exact HA | apply Matrix3_neg_spec; assumption].
  - eapply copies_to_app; [exact HA | apply negc_spec; assumption].
  - eapply mutates_to_insert; [exact HA | apply Matrix3_mul_spec; assumption].
  - eapply copies_to_app; [exact HA | apply mulc_spec; assumption].
  - eapply mutates_to_insert; [exact HA | apply Matrix3_div_spec; assumption].
  - eapply copies_to_app; [exact HA | apply divc_spec; assumption].
  - eapply mutates_to_insert; [exact HA | apply Matrix3_lerp_spec; assumption].
  - eapply copies_to_app; [exact HA | apply lerpc_spec; assumption].
  - eapply mutates_to_insert; [exact HA | eapply Matrix3_fill_spec; eassumption].
  - eapply copies_to_app; [exact HA | eapply fillc_spec; eassumption].
  - eapply mutates_to_insert; [exact HA | apply Matrix3_norm_spec; assumption].
  - eapply copies_to_app; [exact HA | apply normc_spec; assumption].
  - eapply mutates_to_insert; [exact HA | apply Matrix3_trans_spec; assumption].
  - eapply copies_to_app; [exact HA | apply transc_spec; assumption].
  - eapply mutates_to_insert; [exact HA | apply Matrix3_prod_spec; assumption].
  - eapply copies_to_app; [exact HA | apply prodc_spec; assumption].
  - eapply mutates_to_insert; [exact HA | apply Matrix3_adj_spec; assumption].
  - eapply copies_to_app; [exact HA | apply adjc_spec; assumption].
  - apply Matrix3_pow_spec; assumption.
  - destruct (powc_spec h this A n HA LA) as (h' & Hrun & Hres & Hpre).
    exists (length h), h'. split; [exact Hrun|]. split; [reflexivity|].
    split; [exact Hres|]. split; [apply Hpre; exact HA | exact Hpre].
  - destruct (falsy (det_of A)) eqn:Hd.
    + split; [eapply Matrix3_inv_spec_singular; eassumption
             | apply invc_spec_singular; assumption].
    + split.
      * eapply mutates_to_insert; [exact HA|].
        eapply bind_run; [apply Matrix3_inv_spec_regular; eassumption | reflexivity].
      * eapply copies_to_app; [exact HA|].
        eapply bind_run; [apply invc_spec_regular; eassumption | reflexivity].
Qed.

(** C9.  For a matrix [M] whose determinant is zero and a negative
    integer [n]: the inner [inv()] yields [undefined] without touching [M],
    and [M.pow(n)] goes on to do exactly what [M.pow(|n|)] does, returning
    [M] raised to the power [|n|] by repeated squaring (the [|n|]-fold
    product in exact arithmetic), never [undefined] and never an
    exception.  [M.pow(-1)] leaves the whole heap as it was and
    [M.pow(-2)] leaves [M * M] in [M]. *)
Theorem pow_negative_singular (h : heap T) (this : loc) (A : list T) (n : Z) :
  h !! this = Some A -> is_Matrix3 A -> (det_of A == n0)%num = true -> (n < 0)%Z ->
  Matrix3.inv this h = Some (None, h)
  /\ Matrix3.pow this n h = Matrix3.pow this (Z.abs n) h
  /\ mutates_to (Matrix3.pow this n) this
       (rpow_of (Z.to_nat (Z.abs n)) A (Z.abs n)) h
  /\ Matrix3.pow this (-1) h = Some (this, h)
  /\ mutates_to (Matrix3.pow this (-2)) this (prod_of A A) h
  /\ (ExactNumber T ->
      mutates_to (Matrix3.pow this n) this (mpow A (Z.to_nat (Z.abs n))) h).
Proof.
  intros HA LA Hz Hn.
  assert (Hf : falsy (det_of A) = true) by (unfold falsy; rewrite Hz; reflexivity).
  assert (Hinv : Matrix3.inv this h = Some (None, h))
    by (eapply Matrix3_inv_spec_singular; eassumption).
  assert (Hpow : forall k, (k < 0)%Z -> pow_of A k = rpow_of (Z.to_nat (Z.abs k)) A (Z.abs k)).
  { intros k Hk. unfold pow_of. rewrite Hf.
    destruct (Z.ltb_spec k 0); [|lia]. destruct (Z.eqb_spec k 0); [lia|]. reflexivity. }
  split; [exact Hinv|]. split; [|split; [|split; [|split]]].
  - unfold Matrix3.pow.
    destruct (Z.ltb_spec n 0); [|lia]. destruct (Z.eqb_spec n 0); [lia|].
    destruct (Z.ltb_spec (Z.abs n) 0); [lia|]. destruct (Z.eqb_spec (Z.abs n) 0); [lia|].
    rewrite Z.abs_idemp.
    eapply bind_run; [eapply bind_run; [exact Hinv | reflexivity]|]. reflexivity.
  - rewrite <- (Hpow n Hn). apply Matrix3_pow_spec; assumption.
  - unfold Matrix3.pow. cbn [Z.ltb Z.eqb Z.compare Z.abs].
    eapply bind_run; [eapply bind_run; [exact Hinv | reflexivity]|]. reflexivity.
  - replace (prod_of A A) with (pow_of A (-2)) by (rewrite Hpow by lia; reflexivity).
    apply Matrix3_pow_spec; assumption.
  - intros Ex. rewrite <- (rpow_of_mpow (Z.to_nat (Z.abs n))); [| exact LA | lia | lia].
    rewrite <- (Hpow n Hn). apply Matrix3_pow_spec; assumption.
Qed.

(** C10.  In exact arithmetic, for every matrix [M], singular or not,
    [M.prodc(M.adjc())] and [Matrix3.scalar(M.det)] are new matrices with
    the same 9 entries, those of the determinant times the identity; [M]
    is left unchanged. *)
Theorem adjugate_product_is_det_scalar `{!ExactNumber T}
    (h : heap T) (this : loc) (A : list T) :
  h !! this = Some A -> is_Matrix3 A ->
  copies_to (adjugate_product this) this A (scalar_matrix (det_of A)) h
  /\ copies_to (det_scalar this) this A (scalar_matrix (det_of A)) h.
Proof.
  intros HA LA. split.
  - exists (S (length h)), ((h ++ [adj_of A]) ++ [scalar_matrix (det_of A)]).
    split.
    { unfold adjugate_product. eapply bind_run; [apply adjc_spec; eassumption|].
      rewrite <- adjugate_identity.
      replace (S (length h)) with (length (h ++ [adj_of A]))
        by (rewrite length_app; cbn; lia).
      apply prodc_spec; [lookup | lookup | exact LA]. }
    split; [lia|]. split.
    { apply list_lookup_middle. rewrite length_app. cbn. lia. }
    split.
    { apply lookup_app_l_Some, lookup_app_l_Some. exact HA. }
    intros l b Hl. apply lookup_app_l_Some, lookup_app_l_Some. exact Hl.
  - apply copies_to_app; [exact HA|]. unfold det_scalar.
    eapply bind_run; [apply Matrix3_det_spec; exact HA|].
    apply Static_scalar_spec.
Qed.

End Claims.

(** C8.  Let [cos] and [sin] return, for [Math.PI / 2], the correctly
    rounded values [6.123233995736766e-17] and [1], and let the tolerance
    [epsilon2] exceed the square of that cosine.  Then
    [Matrix3.rotZ(Math.PI / 2, cos, sin).at(u)] with [u = (1, 0, 0)]
    returns [u] itself, now holding [(6.123233995736766e-17, 1, 0)], no
    other existing object changes, and [equal] accepts it as
    [(0, 1, 0)]. *)
Theorem rotZ_quarter_turn (Alg : Algebra float) (cos sin : float -> float)
    (h : heap float) (u : loc) :
  h !! u = Some [1; 0; 0]%float ->
  cos (Math_PI / 2)%float = cos_half_pi ->
  sin (Math_PI / 2)%float = 1%float ->
  (cos_half_pi * cos_half_pi <? epsilon2)%float = true ->
  (exists h', rotZ_at (Math_PI / 2)%float cos sin u h = Some (u, h')
     /\ h' !! u = Some [cos_half_pi; 1; 0]%float
     /\ modifies_only u h h')
  /\ result (rotZ_at_equal (Math_PI / 2)%float cos sin u) h = Some true.
Proof.
  intros Hu Hc Hs He.
  assert (Hlt : u < length h) by (eapply lookup_lt_Some; exact Hu).
  pose (m := mat3 cos_half_pi (- 1)%float 0%float 1%float cos_half_pi 0%float
               0%float 0%float 1%float).
  assert (Hrun : rotZ_at (Math_PI / 2)%float cos sin u h
            = Some (u, <[u := [cos_half_pi; 1; 0]%float]> (h ++ [m]))).
  { unfold rotZ_at. eapply bind_run; [apply Static_rotZ_spec|].
    rewrite Hc, Hs.
    rewrite (Matrix3_at_spec (h ++ [m]) (length h) u m 1 0 0)%float;
      [reflexivity | lookup | lookup | lia]. }
  split.
  - eexists. split; [exact Hrun|]. split.
    + apply list_lookup_insert_eq. rewrite length_app. lia.
    + eapply modifies_only_trans; [apply modifies_only_app | apply modifies_only_insert].
  - eapply result_run. unfold rotZ_at_equal.
    eapply bind_run; [exact Hrun|].
    eapply bind_run; [apply Vector3_new_spec|].
    erewrite Vector3_equal_spec;
      [| apply lookup_app_l_Some, list_lookup_insert_eq; rewrite length_app; lia
       | apply list_lookup_middle; reflexivity].
    rewrite <- He. reflexivity.
Qed.

(** C5, on the code as it is.  On [new Matrix3(1, 2, 3, 4, 5, 6, 7, 8, 9)],
    assigning [(10, 20, 30)] to [x] and reading [x] back yields
    [(10, 4, 7)]: the setter writes the first row, the getter reads the
    first column.  Likewise [y] reads back [(2, 20, 8)] and [z] reads back
    [(3, 6, 30)]. *)
Lemma set_then_get_reads_a_column :
  result (v ← Vector3.new 10 20 30; r ← set_get_x 0 v; contents r)%float
    [Samples.rows123] = Some [10; 4; 7]%float
  /\ result (v ← Vector3.new 10 20 30; r ← set_get_y 0 v; contents r)%float
       [Samples.rows123] = Some [2; 20; 8]%float
  /\ result (v ← Vector3.new 10 20 30; r ← set_get_z 0 v; contents r)%float
       [Samples.rows123] = Some [3; 6; 30]%float.
Proof. repeat split; vm_compute; reflexivity. Qed.

(** ** Counterexamples on binary64 *)

(** C1 as stated fails on
    [new Matrix3(2e200, 1e200, 0, 1e200, 1e200, 0, 0, 0, 1e200)]: the
    determinant evaluates to [Infinity - Infinity = NaN], so [inv()] yields
    [undefined] although [M.det == 0] is false. *)
Lemma inv_undefined_without_zero_det :
  ~ (result (Matrix3.inv 0) [Samples.overflowing] = Some None
     <-> result (d ← Matrix3.det 0; mret (d == n0)%num) [Samples.overflowing]
         = Some true).
Proof.
  intros [Hinv _]. assert (E : result (Matrix3.inv 0) [Samples.overflowing] = Some None)
    by (vm_compute; reflexivity).
  apply Hinv in E. vm_compute in E. discriminate E.
Qed.

(** C3 as stated fails on [Matrix3.scalar(0.1 * 2 ** 250)]: [M.pow(4)]
    computes [(M * M) * (M * M)], which differs from [((M * M) * M) * M]
    in the last bit of each diagonal entry (about [1.07e297]); the squared
    distance overflows, so no tolerance makes them [equal], and
    [M.powc(1).prod(M.powc(3)).equal(M.powc(4))] is false whatever
    [epsilon2] is.  It fails on [Matrix3.scalar(1e200)] too: there
    [M.powc(1).prod(M.powc(1))] and [M.powc(2)] both hold [Infinity] on the
    diagonal, and [equal] compares [Infinity - Infinity = NaN] with the
    tolerance. *)
Lemma pow_rounds_differently :
  result (r ← Matrix3.pow 0 4; contents r) [Samples.scaled_tenth]
    <> Some (mpow Samples.scaled_tenth 4)
  /\ ~ (exists Alg : Algebra float,
          equal_of (pow_of Samples.scaled_tenth 4) (mpow Samples.scaled_tenth 4) = true)
  /\ ~ (exists Alg : Algebra float,
          result (pow_sum_equal 0 1 3) [Samples.scaled_tenth] = Some true)
  /\ ~ (exists Alg : Algebra float,
          result (pow_sum_equal 0 1 1) [Samples.huge] = Some true).
Proof.
  split; [|split; [|split]].
  - vm_compute. discriminate.
  - intros [[eps mg] E]. vm_compute in E. rewrite float_lt_infinity in E. discriminate E.
  - intros [[eps mg] E]. vm_compute in E. rewrite float_lt_infinity in E. discriminate E.
  - intros [[eps mg] E]. vm_compute in E. rewrite float_lt_nan in E. discriminate E.
Qed.

(** C4 as stated fails on [new Matrix3(0, 1e200, 0, 0, 0, 0, 0, 0, 0)]:
    the round trip moves the entry from row 0, column 1 to row 1,
    column 0, and no tolerance makes the result [equal] to [M]. *)
Lemma array_roundtrip_changes_matrix :
  result (r ← array_roundtrip 0; contents r) [Samples.lopsided]
    <> Some Samples.lopsided
  /\ ~ (exists Alg : Algebra float,
          result (array_roundtrip_equal 0) [Samples.lopsided] = Some true).
Proof.
  split.
  - vm_compute. discriminate.
  - intros [[eps mg] E]. vm_compute in E. rewrite float_lt_infinity in E. discriminate E.
Qed.

(** C6 as stated fails on [Matrix3.scalar(1e200)]: the determinant is
    [Infinity], which is not zero, [1 / det] is [0], the inverse holds
    [Infinity * 0 = NaN], and [M.prodc(M.invc())] is all [NaN]; no
    tolerance makes either product [equal] to the identity. *)
Lemma inverse_product_overflows :
  result (d ← Matrix3.det 0; mret (d == n0)%num) [Samples.huge] = Some false
  /\ result (r ← right_inverse 0; contents r) [Samples.huge]
     = Some [nan; nan; nan; nan; nan; nan; nan; nan; nan]
  /\ ~ (exists Alg : Algebra float,
          result (right_inverse_equal 0) [Samples.huge] = Some true)
  /\ ~ (exists Alg : Algebra float,
          result (left_inverse_equal 0) [Samples.huge] = Some true).
Proof.
  split; [vm_compute; reflexivity|]. split; [vm_compute; reflexivity|]. split.
  - intros [[eps mg] E]. vm_compute in E. rewrite float_lt_nan in E. discriminate E.
  - intros [[eps mg] E]. vm_compute in E. rewrite float_lt_nan in E. discriminate E.
Qed.

(** ** The theorems at work *)

(** C1 at work: the determinant of [rows123] is [0], read without any write. *)
Lemma inv_contract_witness :
  Matrix3.det 0 [Samples.rows123] = Some (0%float, [Samples.rows123]).
Proof.
  exact (proj1 (inv_contract [Samples.rows123] 0 Samples.rows123 eq_refl eq_refl)).
Defined.

(** C2 at work: [rows123] multiplied by itself, in place. *)
Lemma prod_is_matrix_product_witness :
  Matrix3.prod 0 0 [Samples.rows123]
  = Some (0, [mat3 30 36 42 66 81 96 102 126 150]%float).
Proof.
  exact (proj1 (prod_is_matrix_product [Samples.rows123] 0 0 Samples.rows123
                  Samples.rows123 eq_refl eq_refl eq_refl eq_refl)).
Defined.

(** C3 at work: the cube of the rational matrix [shear]. *)
Lemma pow_exact_witness :
  mutates_to (Matrix3.pow 0 3) 0 (mpow Samples.shear 3) [Samples.shear].
Proof.
  refine (proj1 (proj2 (pow_exact (H0 := Samples.Qc_Algebra) [Samples.shear] 0
                          Samples.shear eq_refl eq_refl)) Qc_ExactNumber 3%Z _).
  discriminate.
Defined.

(** C4 at work: the round trip of [rows123] holds its columns as rows. *)
Lemma array_roundtrip_transposes_witness :
  copies_to (array_roundtrip 0) 0 Samples.rows123
    (mat3 1 4 7 2 5 8 3 6 9)%float [Samples.rows123].
Proof.
  exact (proj1 (array_roundtrip_transposes [Samples.rows123] 0 Samples.rows123
                  eq_refl eq_refl)).
Defined.

(** C6 at work: [shear] times its inverse, on the rationals. *)
Lemma inverse_products_exact_witness :
  copies_to (right_inverse 0) 0 Samples.shear identity [Samples.shear].
Proof.
  exact (proj1 (inverse_products_exact (H0 := Samples.Qc_Algebra) [Samples.shear] 0
                  Samples.shear eq_refl eq_refl shear_regular)).
Defined.

(** C7 at work: [rows123.addc(diag248)] is a new matrix, [rows123] stays. *)
Lemma copying_variants_witness :
  copies_to (Matrix3.addc 0 1) 0 Samples.rows123
    (mat3 3 2 3 4 9 6 7 8 17)%float [Samples.rows123; Samples.diag248].
Proof.
  exact (proj2 (proj1 (copying_variants (H0 := Samples.float_Algebra)
                         [Samples.rows123; Samples.diag248] 0 1 Samples.rows123
                         Samples.diag248 2%float 0.5%float 3%Z
                         eq_refl eq_refl eq_refl eq_refl))).
Defined.

(** C8 at work: with tolerance [2^-104], the quarter turn of [(1, 0, 0)]
    is accepted as [(0, 1, 0)]. *)
Lemma rotZ_quarter_turn_witness :
  result (rotZ_at_equal (H0 := Samples.float_Algebra) (Math_PI / 2)%float
            (fun _ => cos_half_pi) (fun _ => 1%float) 0)
    [[1; 0; 0]%float] = Some true.
Proof.
  exact (proj2 (rotZ_quarter_turn Samples.float_Algebra (fun _ => cos_half_pi)
                  (fun _ => 1%float) [[1; 0; 0]%float] 0
                  eq_refl eq_refl eq_refl eq_refl)).
Defined.

(** C9 at work: [rows123] is singular, so [pow(-2)] runs as [pow(2)]. *)
Lemma pow_negative_singular_witness :
  Matrix3.pow 0 (-2) [Samples.rows123] = Matrix3.pow 0 2 [Samples.rows123].
Proof.
  exact (proj1 (proj2 (pow_negative_singular [Samples.rows123] 0 Samples.rows123 (-2)
                         eq_refl eq_refl eq_refl eq_refl))).
Defined.

(** C10 at work: [shear] times its adjugate, on the rationals. *)
Lemma adjugate_product_is_det_scalar_witness :
  copies_to (adjugate_product 0) 0 Samples.shear
    (scalar_matrix (det_of Samples.shear)) [Samples.shear].
Proof.
  exact (proj1 (adjugate_product_is_det_scalar [Samples.shear] 0 Samples.shear
                  eq_refl eq_refl)).
Defined.

(** ** Further properties of the code *)

Section MoreRun.
Context {T : Type} `{Number T}.

Lemma load_raw_run a i (h : heap T) b :
  h !! a = Some b -> load_raw a i h = Some (b !! i, h).
Proof. intros Hb. unfold load_raw. rewrite Hb. reflexivity. Qed.

End MoreRun.

(** Lengths of, and lookups in, heaps that were updated and extended
    several times. *)
Ltac heap_len :=
  repeat match goal with
         | H : ?h !! ?a = Some _ |- _ =>
             lazymatch goal with
             | _ : a < length h |- _ => fail
             | _ => pose proof (lookup_lt_Some h a _ H)
             end
         end;
  rewrite ?length_app, ?length_insert; cbn [length]; lia.

Ltac find :=
  first [ eassumption
        | apply list_lookup_middle; reflexivity
        | apply lookup_app_l_Some; find
        | apply list_lookup_insert_eq; heap_len
        | rewrite list_lookup_insert_ne by (congruence || heap_len); find ].

(** One statement of a method body, and all of them. *)
Ltac step :=
  lazymatch goal with
  | |- mbind _ _ _ = _ =>
      eapply bind_run;
      [step | cbv beta;
       cbn [elem default from_option id lookup list_lookup insert list_insert
            index_obj deref]]
  | |- index_obj _ _ _ = _ => reflexivity
  | |- contents_all _ _ = _ => progress cbn [contents_all]
  | |- Vector3.new _ _ _ _ = _ => apply Vector3_new_spec
  | |- Matrix3.new _ _ _ _ _ _ _ _ _ _ = _ => apply Matrix3_new_spec
  | |- load _ _ _ = _ => apply load_run; find
  | |- load_raw _ _ _ = _ => apply load_raw_run; find
  | |- contents _ _ = _ => apply contents_run; find
  | |- store (length ?h) _ _ (?h ++ [_]) = _ =>
      etransitivity; [apply store_run_new | reflexivity]
  | |- store ?a _ _ (<[?a := _]> _) = _ =>
      etransitivity; [apply store_run_upd; heap_len | reflexivity]
  | |- store _ _ _ _ = _ =>
      etransitivity; [eapply store_run; find | reflexivity]
  | |- new_Float64Array _ _ = _ => apply alloc_run
  | |- mret _ _ = _ => apply ret_run
  end.

Ltac steps := repeat step.

(** A vector is three numbers. *)
Ltac vec3 R HR :=
  unfold is_Vector3 in HR;
  do 3 (destruct R as [|? R]; [discriminate HR|]);
  destruct R; [clear HR | discriminate HR].

(** A row or column index below 3, case by case. *)
Ltac index3 i :=
  destruct i as [|[|[|i]]]; [| | |lia].

Section Accessors.
Context {T : Type} `{Number T} `{Algebra T}.

Lemma set_xyz_spec (h : heap T) this A r0 r1 r2 R0 R1 R2 :
  h !! this = Some A -> is_Matrix3 A ->
  h !! r0 = Some R0 -> h !! r1 = Some R1 -> h !! r2 = Some R2 ->
  r0 <> this -> r1 <> this -> r2 <> this ->
  Matrix3.set_xyz this [r0; r1; r2] h = Some (tt, <[this := of_rows R0 R1 R2]> h).
Proof.
  intros HA LA H0' H1' H2' N0 N1 N2. mat9 A LA.
  unfold Matrix3.set_xyz. steps.
Qed.

Lemma set_xyzt_spec (h : heap T) this A c0 c1 c2 C0 C1 C2 :
  h !! this = Some A -> is_Matrix3 A ->
  h !! c0 = Some C0 -> h !! c1 = Some C1 -> h !! c2 = Some C2 ->
  c0 <> this -> c1 <> this -> c2 <> this ->
  Matrix3.set_xyzt this [c0; c1; c2] h = Some (tt, <[this := of_cols C0 C1 C2]> h).
Proof.
  intros HA LA H0' H1' H2' N0 N1 N2. mat9 A LA.
  unfold Matrix3.set_xyzt. steps.
Qed.

Lemma get_xyz_contents (h : heap T) this A :
  h !! this = Some A ->
  result (vs ← Matrix3.get_xyz this; contents_all vs) h
  = Some [[elem A 0; elem A 3; elem A 6]; [elem A 1; elem A 4; elem A 7];
          [elem A 2; elem A 5; elem A 8]].
Proof.
  intros HA. eapply result_run.
  unfold Matrix3.get_xyz. steps.
Qed.

Lemma get_xyzt_contents (h : heap T) this A :
  h !! this = Some A ->
  result (vs ← Matrix3.get_xyzt this; contents_all vs) h
  = Some [[elem A 0; elem A 1; elem A 2]; [elem A 3; elem A 4; elem A 5];
          [elem A 6; elem A 7; elem A 8]].
Proof.
  intros HA. eapply result_run.
  unfold Matrix3.get_xyzt. steps.
Qed.

Lemma row_run (h : heap T) this A i :
  h !! this = Some A ->
  Matrix3.row this i h = Some ([A !! i; A !! (3 + i); A !! (6 + i)], h).
Proof. intros HA. unfold Matrix3.row. steps. Qed.

Lemma col_run (h : heap T) this A j :
  h !! this = Some A ->
  Matrix3.col this j h
  = Some ([A !! (3 * j); A !! (1 + 3 * j); A !! (2 + 3 * j)], h).
Proof. intros HA. unfold Matrix3.col. cbv zeta. steps. Qed.

Lemma Vector3_clone_spec (h : heap T) u U :
  h !! u = Some U ->
  Vector3.clone u h = Some (length h, h ++ [[elem U 0; elem U 1; elem U 2]]).
Proof. intros HU. unfold Vector3.clone. steps. Qed.

Lemma at_run (h : heap T) this u A U :
  h !! this = Some A -> h !! u = Some U -> is_Vector3 U -> this <> u ->
  Matrix3.at_ this u h = Some (u, <[u := at_of A U]> h).
Proof.
  intros HA HU LU Hne. vec3 U LU. unfold Matrix3.at_. steps.
Qed.

Lemma dot_run (h : heap T) this m A B :
  h !! this = Some A -> h !! m = Some B ->
  Matrix3.dot this m h = Some (dot_of A B, h).
Proof. intros HA HB. unfold Matrix3.dot. steps. Qed.

Lemma zero_run (h : heap T) this A :
  h !! this = Some A ->
  Matrix3.zero this h = Some ((dot_of A A <? epsilon2)%num, h).
Proof. intros HA. unfold Matrix3.zero. steps. Qed.

Lemma copy_run (h : heap T) this m A B :
  h !! this = Some A -> h !! m = Some B -> is_Matrix3 A ->
  Matrix3.copy this m h = Some (this, <[this := clone_of B]> h).
Proof.
  intros HA HB LA. alias m this HA HB; mat9 A LA; unfold Matrix3.copy; steps.
Qed.

Lemma tensor_run (h : heap T) u v U V :
  h !! u = Some U -> h !! v = Some V ->
  Matrix3.Static.tensor u (Some v) h = Some (length h, h ++ [tensor_of U V]).
Proof.
  intros HU HV. unfold Matrix3.Static.tensor. cbn [default from_option id]. steps.
Qed.

Lemma rot_run (h : heap T) u U theta cos sin :
  h !! u = Some U ->
  Matrix3.Static.rot u theta cos sin h
  = Some (length h, h ++ [rot_of U (cos theta) (sin theta)]).
Proof. intros HU. unfold Matrix3.Static.rot. cbv zeta. steps. Qed.

Lemma e_run (h : heap T) i j :
  Matrix3.Static.e i j h = Some (length h, h ++ [e_of i j]).
Proof. unfold Matrix3.Static.e. steps. Qed.

Lemma e_of_is_Matrix3 i j : is_Matrix3 (e_of i j).
Proof. unfold is_Matrix3, e_of. rewrite length_insert. reflexivity. Qed.

Lemma elem_e_of i j k : k < 9 ->
  elem (e_of i j) k = if decide (3 * j + i = k) then n1 else n0.
Proof.
  intros Hk. unfold elem, e_of. rewrite list_lookup_insert.
  rewrite length_replicate.
  destruct (decide (3 * j + i = k)) as [E|E].
  - rewrite decide_True by lia. reflexivity.
  - rewrite decide_False by tauto. rewrite lookup_replicate_2 by exact Hk. reflexivity.
Qed.

Lemma copies_to_far (c : M T loc) (h : heap T) this A R (l : list (list T)) :
  h !! this = Some A -> c h = Some (length (h ++ l), (h ++ l) ++ [R]) ->
  copies_to c this A R h.
Proof.
  intros HA Hc. exists (length (h ++ l)), ((h ++ l) ++ [R]). split; [exact Hc|].
  split; [rewrite length_app; lia|]. split; [apply list_lookup_middle; reflexivity|].
  split; [apply lookup_app_l_Some, lookup_app_l_Some, HA|].
  intros a b Hb. apply lookup_app_l_Some, lookup_app_l_Some, Hb.
Qed.

Lemma bind_none_after_load {B} (arr : list loc) i j (k : T -> M T B) (h : heap T) :
  (forall x, k x h = None) -> ((r ← index_obj arr i; load r j) ≫= k) h = None.
Proof.
  intros Hk. unfold mbind, M_bind, index_obj, deref, load, throw.
  destruct (arr !! i) as [r|]; [|reflexivity]. cbn.
  destruct (h !! r) as [b|]; [|reflexivity]. cbn. apply Hk.
Qed.

End Accessors.

(** *** Rows, columns and vectors *)

Section Layout.
Context {T : Type} `{Number T} `{Algebra T}.

(** X1.  Writing three vectors with [M.xyz = [r0, r1, r2]] and reading
    [M.xyz] back gives three new vectors with the components that were
    written: the setter and the getter agree on rows.  After the write, [M]
    holds the matrix whose rows are the three vectors, and no other object
    has changed. *)
Theorem xyz_roundtrip (h : heap T) this A r0 r1 r2 R0 R1 R2 :
  h !! this = Some A -> is_Matrix3 A ->
  h !! r0 = Some R0 -> h !! r1 = Some R1 -> h !! r2 = Some R2 ->
  is_Vector3 R0 -> is_Vector3 R1 -> is_Vector3 R2 ->
  r0 <> this -> r1 <> this -> r2 <> this ->
  result (set_get_xyz this [r0; r1; r2]) h = Some [R0; R1; R2]
  /\ mutates_to (set_xyz_this this [r0; r1; r2]) this (of_rows R0 R1 R2) h.
Proof.
  intros HA LA H0' H1' H2' L0 L1 L2 N0 N1 N2.
  pose proof (set_xyz_spec h this A r0 r1 r2 R0 R1 R2 HA LA H0' H1' H2' N0 N1 N2) as Hset.
  split.
  - unfold set_get_xyz, result. unfold mbind at 1, M_bind at 1. rewrite Hset.
    fold (result (vs ← Matrix3.get_xyz this; contents_all vs)
            (<[this := of_rows R0 R1 R2]> h)).
    rewrite (get_xyz_contents _ this (of_rows R0 R1 R2)) by find.
    vec3 R0 L0. vec3 R1 L1. vec3 R2 L2. reflexivity.
  - eapply mutates_to_insert; [exact HA|].
    eapply bind_run; [exact Hset | reflexivity].
Qed.

(** X2.  The same for columns: after [M.xyzt = [c0, c1, c2]], reading
    [M.xyzt] gives three new vectors with the components that were written,
    and [M] holds the matrix whose columns are the three vectors. *)
Theorem xyzt_roundtrip (h : heap T) this A c0 c1 c2 C0 C1 C2 :
  h !! this = Some A -> is_Matrix3 A ->
  h !! c0 = Some C0 -> h !! c1 = Some C1 -> h !! c2 = Some C2 ->
  is_Vector3 C0 -> is_Vector3 C1 -> is_Vector3 C2 ->
  c0 <> this -> c1 <> this -> c2 <> this ->
  result (set_get_xyzt this [c0; c1; c2]) h = Some [C0; C1; C2]
  /\ mutates_to (set_xyzt_this this [c0; c1; c2]) this (of_cols C0 C1 C2) h.
Proof.
  intros HA LA H0' H1' H2' L0 L1 L2 N0 N1 N2.
  pose proof (set_xyzt_spec h this A c0 c1 c2 C0 C1 C2 HA LA H0' H1' H2' N0 N1 N2) as Hset.
  split.
  - unfold set_get_xyzt, result. unfold mbind at 1, M_bind at 1. rewrite Hset.
    fold (result (vs ← Matrix3.get_xyzt this; contents_all vs)
            (<[this := of_cols C0 C1 C2]> h)).
    rewrite (get_xyzt_contents _ this (of_cols C0 C1 C2)) by find.
    vec3 C0 L0. vec3 C1 L1. vec3 C2 L2. reflexivity.
  - eapply mutates_to_insert; [exact HA|].
    eapply bind_run; [exact Hset | reflexivity].
Qed.

(** X3.  Setting three vectors as rows is the same as setting them as
    columns and transposing: [M.xyz = vs] leaves the heap that
    [M.xyzt = vs; M.trans()] leaves, and entry [(i, j)] of the one matrix is
    entry [(j, i)] of the other. *)
Theorem rows_are_transposed_columns (h : heap T) this A v0 v1 v2 V0 V1 V2 :
  h !! this = Some A -> is_Matrix3 A ->
  h !! v0 = Some V0 -> h !! v1 = Some V1 -> h !! v2 = Some V2 ->
  v0 <> this -> v1 <> this -> v2 <> this ->
  set_xyz_this this [v0; v1; v2] h = set_xyzt_trans this [v0; v1; v2] h
  /\ set_xyz_this this [v0; v1; v2] h
     = Some (this, <[this := transpose (of_cols V0 V1 V2)]> h)
  /\ (forall i j, i < 3 -> j < 3 ->
        entry (of_rows V0 V1 V2) i j = entry (of_cols V0 V1 V2) j i).
Proof.
  intros HA LA H0' H1' H2' N0 N1 N2.
  assert (R : set_xyz_this this [v0; v1; v2] h
              = Some (this, <[this := transpose (of_cols V0 V1 V2)]> h)).
  { eapply bind_run; [|reflexivity].
    apply (set_xyz_spec h this A v0 v1 v2 V0 V1 V2); assumption. }
  split; [|split; [exact R|]].
  - rewrite R. symmetry. unfold set_xyzt_trans. eapply bind_run.
    + apply (set_xyzt_spec h this A v0 v1 v2 V0 V1 V2); assumption.
    + rewrite (Matrix3_trans_spec _ this (of_cols V0 V1 V2)); [|find|reflexivity].
      rewrite list_insert_insert_eq. reflexivity.
  - intros i j Hi Hj. index3 i; index3 j; reflexivity.
Qed.

(** X4.  [trans] is an involution: [M.trans()] leaves in [M] the matrix
    with rows and columns exchanged, and [M.trans().trans()] restores every
    entry, so the heap is as it was. *)
Theorem trans_twice_restores (h : heap T) this A :
  h !! this = Some A -> is_Matrix3 A ->
  trans_twice this h = Some (this, h)
  /\ mutates_to (Matrix3.trans this) this (transpose A) h.
Proof.
  intros HA LA. split.
  - unfold trans_twice.
    eapply bind_run; [apply Matrix3_trans_spec; eassumption|].
    rewrite (Matrix3_trans_spec _ this (trans_of A)); [|find|reflexivity].
    rewrite list_insert_insert_eq, !trans_of_transpose, transpose_involutive by exact LA.
    rewrite list_insert_id by exact HA. reflexivity.
  - eapply mutates_to_insert; [exact HA|]. rewrite <- trans_of_transpose.
    apply Matrix3_trans_spec; assumption.
Qed.

(** X5.  For an index [i] in [0..2], [M.row(i)] is the three entries of
    row [i], [M.col(i)] the three entries of column [i], and the rows of [M]
    are the columns of [M.transc()]; neither call changes anything.
    Neither checks its index: for [i >= 3], [row] returns
    [[M[i], M[3 + i], undefined]], which still holds entries of [M] when
    [i < 6], and [col] returns three [undefined]. *)
Theorem row_col_bounds (h : heap T) this A i :
  h !! this = Some A -> is_Matrix3 A ->
  (i < 3 ->
     Matrix3.row this i h
     = Some ([Some (entry A i 0); Some (entry A i 1); Some (entry A i 2)], h)
     /\ Matrix3.col this i h
        = Some ([Some (entry A 0 i); Some (entry A 1 i); Some (entry A 2 i)], h)
     /\ result (transc_col this i) h = result (Matrix3.row this i) h)
  /\ (3 <= i ->
        Matrix3.row this i h = Some ([A !! i; A !! (3 + i); None], h)
        /\ Matrix3.col this i h = Some ([None; None; None], h)).
Proof.
  intros HA LA. rewrite (row_run h this A i HA), (col_run h this A i HA).
  split.
  - intros Hi.
    assert (Hcol : result (transc_col this i) h
              = Some [trans_of A !! (3 * i); trans_of A !! (1 + 3 * i);
                      trans_of A !! (2 + 3 * i)]).
    { eapply result_run. eapply bind_run; [apply transc_spec; eassumption|].
      apply col_run. find. }
    rewrite Hcol. unfold result. rewrite (row_run h this _ i HA).
    mat9 A LA. index3 i; repeat split; reflexivity.
  - intros Hi. split; repeat f_equal; apply lookup_ge_None_2; rewrite LA; lia.
Qed.

End Layout.

(** *** Generators and vectors *)

Section Building.
Context {T : Type} `{Number T} `{Algebra T}.

(** X6.  [Matrix3.e(i, j)] is a new matrix that is zero except for one
    write of [1] at buffer index [3 * j + i].  For [i, j] in [0..2] that is
    entry (row [i], column [j]) and nothing else, so its row [i] is the
    [j]-th unit vector.  The indices are not checked: any [(i, j)] with the
    same [3 * j + i] gives the same matrix, and when [3 * j + i >= 9] the
    write is dropped and the result is the zero matrix. *)
Theorem e_is_canonical (h : heap T) (i j : nat) :
  Matrix3.Static.e i j h = Some (length h, h ++ [e_of i j])
  /\ is_Matrix3 (e_of i j)
  /\ (forall r c, r < 3 -> c < 3 ->
        entry (e_of i j) r c = if decide (3 * c + r = 3 * j + i) then n1 else n0)
  /\ (i < 3 -> j < 3 -> forall r c, r < 3 -> c < 3 ->
        entry (e_of i j) r c = if decide (r = i /\ c = j) then n1 else n0)
  /\ (9 <= 3 * j + i -> e_of i j = replicate 9 n0)
  /\ (i < 3 -> j < 3 ->
        result (e_row i j) h
        = Some [Some (if decide (j = 0) then n1 else n0);
                Some (if decide (j = 1) then n1 else n0);
                Some (if decide (j = 2) then n1 else n0)]).
Proof.
  split; [apply e_run|]. split; [apply e_of_is_Matrix3|].
  split; [|split; [|split]].
  - intros r c Hr Hc. unfold entry. rewrite elem_e_of by lia.
    destruct (decide (3 * j + i = 3 * c + r)), (decide (3 * c + r = 3 * j + i));
      (reflexivity || lia).
  - intros Hi Hj r c Hr Hc. unfold entry. rewrite elem_e_of by lia.
    destruct (decide (3 * j + i = 3 * c + r)), (decide (r = i /\ c = j));
      (reflexivity || lia).
  - intros Hge. unfold e_of. apply list_insert_ge. rewrite length_replicate. exact Hge.
  - intros Hi Hj. eapply result_run. eapply bind_run; [apply e_run|].
    rewrite (row_run _ _ (e_of i j)) by find.
    index3 i; index3 j; reflexivity.
Qed.

(** X7.  [Matrix3.sym] builds a symmetric matrix, equal to its transpose,
    and with both off-diagonal arguments [0] and the last one omitted it is
    [Matrix3.diag]; an omitted [xz] counts as [0].  [Matrix3.asym] keeps the
    diagonal it is given and puts below the diagonal the negated entries
    from above it. *)
Theorem sym_asym_generators (h : heap T) (xx yy zz xy yz : T) (xz : option T) :
  Matrix3.Static.sym xx yy zz xy yz xz h
  = Some (length h, h ++ [sym_of xx yy zz xy yz (default n0 xz)])
  /\ symmetric (sym_of xx yy zz xy yz (default n0 xz))
  /\ transpose (sym_of xx yy zz xy yz (default n0 xz))
     = sym_of xx yy zz xy yz (default n0 xz)
  /\ Matrix3.Static.sym xx yy zz n0 n0 None h = Matrix3.Static.diag xx yy zz h
  /\ Matrix3.Static.asym xx yy zz xy yz xz h
     = Some (length h, h ++ [asym_of xx yy zz xy yz (default n0 xz)])
  /\ (forall i j, i < j -> j < 3 ->
        entry (asym_of xx yy zz xy yz (default n0 xz)) j i
        = nneg (entry (asym_of xx yy zz xy yz (default n0 xz)) i j))
  /\ (forall i, i < 3 ->
        entry (asym_of xx yy zz xy yz (default n0 xz)) i i
        = entry (sym_of xx yy zz xy yz (default n0 xz)) i i).
Proof.
  split; [apply Matrix3_new_spec|]. split; [repeat split|].
  split; [reflexivity|]. split; [reflexivity|].
  split; [apply Matrix3_new_spec|]. split.
  - intros i j Hij Hj. index3 j; index3 i; try lia; reflexivity.
  - intros i Hi. index3 i; reflexivity.
Qed.

(** X8.  [Matrix3.tensor(u, v)] is a new matrix whose entry (row [i],
    column [j]) is [u[i] * v[j]]; with [v] omitted it is [tensor(u, u)],
    which is symmetric, and exchanging the vectors transposes the result. *)
Theorem tensor_is_outer_product `{!MulComm T} (h : heap T) u v U V :
  h !! u = Some U -> h !! v = Some V ->
  Matrix3.Static.tensor u (Some v) h = Some (length h, h ++ [tensor_of U V])
  /\ Matrix3.Static.tensor u None h = Some (length h, h ++ [tensor_of U U])
  /\ (forall i j, i < 3 -> j < 3 ->
        entry (tensor_of U V) i j = (elem U i * elem V j)%num)
  /\ transpose (tensor_of U V) = tensor_of V U
  /\ symmetric (tensor_of U U).
Proof.
  intros HU HV. split; [apply tensor_run; assumption|].
  split; [apply (tensor_run h u u U U); assumption|].
  split; [|split].
  - intros i j Hi Hj. index3 i; index3 j; reflexivity.
  - unfold transpose, tensor_of, of_entries, mat3, entry.
    cbn [Nat.mul Nat.add elem default from_option id lookup list_lookup].
    each_entry ltac:(apply mul_comm).
  - unfold symmetric, tensor_of, of_entries, mat3, entry.
    cbn [Nat.mul Nat.add elem default from_option id lookup list_lookup].
    repeat split; apply mul_comm.
Qed.

(** X9.  [M.at(u)] overwrites the vector [u] with the product of [M] and
    [u]; [M.atc(u)] leaves [u] alone and returns a new vector holding what
    [at] would have written.  [M] is not changed by either. *)
Theorem atc_copies (h : heap T) this u A U :
  h !! this = Some A -> h !! u = Some U -> is_Vector3 U -> this <> u ->
  Matrix3.at_ this u h = Some (u, <[u := at_of A U]> h)
  /\ Matrix3.atc this u h = Some (length h, h ++ [at_of A U]).
Proof.
  intros HA HU LU Hne. split; [apply at_run; assumption|].
  unfold Matrix3.atc.
  eapply bind_run; [apply Vector3_clone_spec; exact HU|].
  assert (Hthis : this < length h) by (eapply lookup_lt_Some; exact HA).
  rewrite (at_run _ this (length h) A [elem U 0; elem U 1; elem U 2]);
    [| find | find | reflexivity | lia].
  rewrite insert_last. vec3 U LU. reflexivity.
Qed.

(** X10.  [Matrix3.affine(m, u, v)] overwrites [v] with [m * v + u]: what
    [m.at(v)] writes, translated by [u] component by component.  Only [v]
    changes, and [u] may be the same object as [v]. *)
Theorem affine_is_at_then_translate (h : heap T) m u v A U V :
  h !! m = Some A -> h !! u = Some U -> h !! v = Some V ->
  is_Vector3 V -> m <> v ->
  Matrix3.Static.affine m u v h
  = Some (v, <[v := translate_of (at_of A V) U]> h)
  /\ Matrix3.at_ m v h = Some (v, <[v := at_of A V]> h).
Proof.
  intros HA HU HV LV Hne. split; [|apply at_run; assumption].
  destruct (decide (u = v)) as [->|Huv].
  - rewrite HU in HV. injection HV as ->. vec3 V LV.
    unfold Matrix3.Static.affine. steps.
  - vec3 V LV. unfold Matrix3.Static.affine. steps.
Qed.

End Building.

(** *** Products, copies and rebuilding *)

Section Composing.
Context {T : Type} `{Number T} `{Algebra T}.

(** X11.  The transpose of a product is the product of the transposes in
    the opposite order: [A.prod(B).trans()] leaves in [A] the same 9 numbers
    that [B.transc().prod(A.transc())] returns in a new matrix, the latter
    leaving [A] and [B] unchanged.  This holds in any arithmetic with
    commutative multiplication, binary64 included. *)
Theorem transpose_of_product `{!MulComm T} (h : heap T) this m A B :
  h !! this = Some A -> h !! m = Some B -> is_Matrix3 A -> is_Matrix3 B ->
  mutates_to (prod_trans this m) this (transpose (matmul A B)) h
  /\ copies_to (trans_prod this m) this A (transpose (matmul A B)) h
  /\ transpose (matmul A B) = matmul (transpose B) (transpose A).
Proof.
  intros HA HB LA LB.
  assert (E : transpose (matmul A B) = matmul (transpose B) (transpose A)).
  { mat9 A LA. mat9 B LB. unfold transpose, matmul, of_entries, mat3, entry.
    cbn [Nat.mul Nat.add elem default from_option id lookup list_lookup].
    each_entry ltac:(apply (f_equal2 nadd); [apply (f_equal2 nadd)|]; apply mul_comm). }
  split; [|split; [|exact E]].
  - eapply mutates_to_insert; [exact HA|]. unfold prod_trans.
    eapply bind_run; [apply Matrix3_prod_spec; eassumption|].
    rewrite (Matrix3_trans_spec _ this (prod_of A B)); [|find|reflexivity].
    rewrite list_insert_insert_eq, trans_of_transpose, prod_of_matmul. reflexivity.
  - exists (length h), ((h ++ [transpose (matmul A B)]) ++ [transpose A]).
    split.
    { unfold trans_prod.
      eapply bind_run; [apply transc_spec; eassumption|].
      eapply bind_run; [apply (transc_spec _ this A); [find | exact LA]|].
      rewrite (Matrix3_prod_spec _ (length h) _ (trans_of B) (trans_of A));
        [| find | find | reflexivity].
      rewrite (trans_of_transpose A), (trans_of_transpose B), prod_of_matmul, <- E.
      do 2 f_equal.
      rewrite insert_app_l by (rewrite length_app; cbn; lia).
      rewrite insert_last. reflexivity. }
    split; [reflexivity|]. split; [find|]. split; [find|].
    intros l b Hl. find.
Qed.

(** X12.  [A.dot(B)] is the sum of the 9 products of corresponding
    entries, it changes nothing, and [B.dot(A)] returns the same number
    (multiplication being commutative, as it is on binary64). *)
Theorem dot_is_symmetric `{!MulComm T} (h : heap T) this m A B :
  h !! this = Some A -> h !! m = Some B ->
  Matrix3.dot this m h = Some (dot_of A B, h)
  /\ Matrix3.dot m this h = Matrix3.dot this m h.
Proof.
  intros HA HB. rewrite (dot_run h this m A B HA HB), (dot_run h m this B A HB HA).
  split; [reflexivity|]. do 2 f_equal. unfold dot_of.
  rewrite !(mul_comm (elem B _) (elem A _)). reflexivity.
Qed.

(** X13.  [Matrix3.array2] takes rows: from the three rows of [M] it
    builds a new matrix with the entries of [M], from the three columns
    the transpose of [M]; [M] is unchanged.  With fewer than three rows it
    throws, and an element missing from a row becomes [NaN]. *)
Theorem array2_of_rows_rebuilds (h : heap T) this A :
  h !! this = Some A -> is_Matrix3 A ->
  copies_to (rows_array2 this) this A A h
  /\ copies_to (cols_array2 this) this A (transpose A) h
  /\ (forall arr, length arr < 3 -> Matrix3.Static.array2 arr h = None)
  /\ Matrix3.Static.array2 [[]; []; []] h = Some (length h, h ++ [fill_of nnan]).
Proof.
  intros HA LA. split; [|split; [|split]].
  - apply copies_to_app; [exact HA|]. unfold rows_array2.
    do 3 (eapply bind_run; [apply row_run; exact HA|]).
    mat9 A LA. apply Matrix3_new_spec.
  - apply copies_to_app; [exact HA|]. unfold cols_array2.
    do 3 (eapply bind_run; [apply col_run; exact HA|]).
    mat9 A LA. apply Matrix3_new_spec.
  - intros arr Harr. destruct arr as [|r0 [|r1 [|r2 arr]]]; [| | |cbn in Harr; lia];
      reflexivity.
  - apply Matrix3_new_spec.
Qed.

(** X14.  [Matrix3.xyz] takes rows as vectors: [Matrix3.xyz(M.xyz)] is a
    new matrix with the entries of [M], and [Matrix3.xyz(M.xyzt)] the
    transpose of [M]; [M] is unchanged.  With fewer than three vectors it
    throws. *)
Theorem xyz_of_rows_rebuilds (h : heap T) this A :
  h !! this = Some A -> is_Matrix3 A ->
  copies_to (xyz_rebuild this) this A A h
  /\ copies_to (xyzt_rebuild this) this A (transpose A) h
  /\ (forall arr, length arr < 3 -> Matrix3.Static.xyz arr h = None).
Proof.
  intros HA LA. split; [|split].
  - apply (copies_to_far _ h this A A
             [[elem A 0; elem A 3; elem A 6]; [elem A 1; elem A 4; elem A 7];
              [elem A 2; elem A 5; elem A 8]]); [exact HA|].
    unfold xyz_rebuild, Matrix3.get_xyz, Matrix3.Static.xyz. steps.
    rewrite <- !app_assoc. cbn [app]. mat9 A LA.
    etransitivity; [apply Matrix3_new_spec|]. rewrite <- app_assoc. reflexivity.
  - apply (copies_to_far _ h this A (transpose A)
             [[elem A 0; elem A 1; elem A 2]; [elem A 3; elem A 4; elem A 5];
              [elem A 6; elem A 7; elem A 8]]); [exact HA|].
    unfold xyzt_rebuild, Matrix3.get_xyzt, Matrix3.Static.xyz. steps.
    rewrite <- !app_assoc. cbn [app]. mat9 A LA.
    etransitivity; [apply Matrix3_new_spec|]. rewrite <- app_assoc. reflexivity.
  - intros arr Harr. unfold Matrix3.Static.xyz.
    destruct arr as [|r0 [|r1 [|r2 arr]]]; [| | |cbn in Harr; lia].
    + reflexivity.
    + do 3 (apply bind_none_after_load; intros ?). reflexivity.
    + do 6 (apply bind_none_after_load; intros ?). reflexivity.
Qed.

(** X15.  [M.copy(N)] makes [M] hold the 9 entries of [N], returns [M] and
    changes nothing else; copying a matrix onto itself changes nothing.
    After the copy, [M.equal(N)] compares [N] with itself. *)
Theorem copy_overwrites (h : heap T) this m A B :
  h !! this = Some A -> h !! m = Some B -> is_Matrix3 A -> is_Matrix3 B ->
  mutates_to (Matrix3.copy this m) this B h
  /\ Matrix3.copy this this h = Some (this, h)
  /\ copy_equal this m h = Some (equal_of B B, <[this := B]> h).
Proof.
  intros HA HB LA LB.
  assert (R : Matrix3.copy this m h = Some (this, <[this := B]> h)).
  { rewrite <- (clone_of_id B LB). apply (copy_run h this m A); assumption. }
  split; [|split].
  - apply (mutates_to_insert _ h this A); assumption.
  - rewrite (copy_run h this this A A) by assumption.
    rewrite (clone_of_id A LA), list_insert_id by exact HA. reflexivity.
  - unfold copy_equal. eapply bind_run; [exact R|].
    assert (Hthis : this < length h) by (eapply lookup_lt_Some; exact HA).
    destruct (decide (m = this)) as [->|Hne]; apply Matrix3_equal_spec; find.
Qed.

(** X16.  [M.reset0()] leaves in [M] the matrix that [Matrix3.zeros]
    creates and that [M.fill(0)] leaves, and [M.reset1()] the identity
    that [Matrix3.eye] creates, whatever [M] held; the generators
    ([zeros], [ones], [eye]) return new matrices and change nothing, and
    [Matrix3.diag(s, s, s)] is [Matrix3.scalar(s)]. *)
Theorem resets_match_generators (h : heap T) this A :
  h !! this = Some A -> is_Matrix3 A ->
  mutates_to (Matrix3.reset0 this) this (fill_of n0) h
  /\ mutates_to (Matrix3.reset1 this) this identity h
  /\ copies_to Matrix3.Static.zeros this A (fill_of n0) h
  /\ copies_to Matrix3.Static.ones this A (fill_of n1) h
  /\ copies_to Matrix3.Static.eye this A identity h
  /\ (forall s, Matrix3.Static.diag s s s h = Matrix3.Static.scalar s h)
  /\ mutates_to (Matrix3.fill this n0) this (fill_of n0) h.
Proof.
  intros HA LA. repeat split.
  - apply (mutates_to_insert _ h this A); [exact HA|].
    mat9 A LA. unfold Matrix3.reset0. steps.
  - apply (mutates_to_insert _ h this A); [exact HA|].
    mat9 A LA. unfold Matrix3.reset1. steps.
  - apply copies_to_app; [exact HA|]. apply Matrix3_new_spec.
  - apply copies_to_app; [exact HA|]. apply Matrix3_new_spec.
  - apply copies_to_app; [exact HA|]. apply Matrix3_new_spec.
  - apply (mutates_to_insert _ h this A); [exact HA|].
    eapply Matrix3_fill_spec; eassumption.
Qed.

End Composing.

(** *** Laws of exact arithmetic *)

Section ExactLaws.
Context {T : Type} `{Number T} `{Algebra T} `{!ExactNumber T}.

Add Field exact_laws : exact_field.

Lemma det_of_prod (A B : list T) : det_of (prod_of A B) = (det_of A * det_of B)%num.
Proof. entries. cbv zeta. cbn [elem default from_option id lookup list_lookup]. ring. Qed.

Lemma det_of_trans (A : list T) : det_of (trans_of A) = det_of A.
Proof. unfold trans_of. entries. cbv zeta. ring. Qed.

Lemma det_of_inv (A : list T) :
  det_of A <> n0 -> (det_of (inv_of A) * det_of A)%num = n1.
Proof.
  intros Hd. revert Hd. unfold inv_of, det_of. cbv zeta.
  cbn [elem default from_option id lookup list_lookup]. intros Hd.
  field. exact Hd.
Qed.

Lemma det_of_inv_regular (A : list T) : det_of A <> n0 -> det_of (inv_of A) <> n0.
Proof.
  intros Hd E. pose proof (det_of_inv A Hd) as E1. rewrite E in E1.
  assert (E0 : (n0 * det_of A)%num = n0) by ring.
  rewrite E0 in E1. pose proof (F_1_neq_0 exact_field) as N. congruence.
Qed.

Lemma inv_of_inv (A : list T) :
  is_Matrix3 A -> det_of A <> n0 -> inv_of (inv_of A) = A.
Proof.
  intros LA Hd.
  rewrite <- (matmul_identity_l (inv_of (inv_of A))) by reflexivity.
  rewrite <- (inverse_right A LA Hd), matmul_assoc.
  rewrite (inverse_right (inv_of A)); [| reflexivity | apply det_of_inv_regular, Hd].
  apply matmul_identity_r, LA.
Qed.

Lemma at_of_matmul (A B U : list T) :
  at_of (matmul A B) U = at_of A (at_of B U).
Proof. unfold at_of. entries. each_entry ltac:(ring). Qed.

Lemma mpow_S_l (A : list T) n : is_Matrix3 A -> mpow A (S n) = matmul A (mpow A n).
Proof.
  intros LA. change (S n) with (1 + n). rewrite mpow_add by exact LA. reflexivity.
Qed.

Lemma mpow_inverse (A : list T) n :
  is_Matrix3 A -> det_of A <> n0 ->
  matmul (mpow (inv_of A) n) (mpow A n) = identity.
Proof.
  intros LA Hd. induction n as [|n IH].
  - apply matmul_identity_l. reflexivity.
  - rewrite (mpow_S (inv_of A)) by reflexivity. rewrite (mpow_S_l A) by exact LA.
    rewrite matmul_assoc, <- (matmul_assoc (inv_of A) A).
    rewrite inverse_left by assumption.
    rewrite matmul_identity_l by (apply mpow_is_Matrix3, LA). exact IH.
Qed.

Lemma pow_of_negative (A : list T) n :
  is_Matrix3 A -> det_of A <> n0 -> (0 < n)%Z ->
  pow_of A (- n) = mpow (inv_of A) (Z.to_nat n).
Proof.
  intros LA Hd Hn. unfold pow_of.
  destruct (Z.ltb_spec (- n) 0) as [_|?]; [|lia].
  destruct (Z.eqb_spec (- n) 0) as [?|_]; [lia|].
  rewrite (proj2 (falsy_exact_false (det_of A)) Hd).
  rewrite Z.abs_opp, Z.abs_eq by lia.
  apply rpow_of_mpow; [reflexivity | lia | lia].
Qed.

(** X17.  In exact arithmetic the determinant is multiplicative and
    invariant under transposition: [A.prodc(B).det] is [A.det * B.det] and
    [A.transc().det] is [A.det]; the identity has determinant 1. *)
Theorem det_is_multiplicative (h : heap T) this m A B :
  h !! this = Some A -> h !! m = Some B -> is_Matrix3 A ->
  det_prod this m h = Some ((det_of A * det_of B)%num, h ++ [prod_of A B])
  /\ det_trans this h = Some (det_of A, h ++ [transpose A])
  /\ det_of identity = n1.
Proof.
  intros HA HB LA. split; [|split].
  - unfold det_prod. eapply bind_run; [apply prodc_spec; eassumption|].
    rewrite <- det_of_prod. apply Matrix3_det_spec. find.
  - unfold det_trans. eapply bind_run; [apply transc_spec; eassumption|].
    rewrite <- (det_of_trans A) at 1. apply Matrix3_det_spec. find.
  - entries. cbv zeta. ring.
Qed.

(** X18.  In exact arithmetic the identity is neutral for [prod] on both
    sides: [M.prod(Matrix3.eye)] leaves every entry of [M] as it was, and
    [Matrix3.eye.prod(M)] is a new matrix with the entries of [M]. *)
Theorem eye_is_neutral (h : heap T) this A :
  h !! this = Some A -> is_Matrix3 A ->
  prod_eye this h = Some (this, h ++ [identity])
  /\ eye_prod this h = Some (length h, h ++ [A]).
Proof.
  intros HA LA. split.
  - unfold prod_eye. eapply bind_run; [apply Static_eye_spec|].
    rewrite (Matrix3_prod_spec _ this (length h) A identity); [|find|find|exact LA].
    rewrite prod_of_matmul, matmul_identity_r by exact LA.
    rewrite list_insert_id by find. reflexivity.
  - unfold eye_prod. eapply bind_run; [apply Static_eye_spec|].
    rewrite (Matrix3_prod_spec _ (length h) this identity A); [|find|find|reflexivity].
    rewrite prod_of_matmul, matmul_identity_l by exact LA.
    rewrite insert_last. reflexivity.
Qed.

(** X19.  In exact arithmetic, whenever the supplied [cos] and [sin]
    satisfy [cos(theta)^2 + sin(theta)^2 = 1], each of [Matrix3.rotX],
    [rotY] and [rotZ] returns a rotation: a new matrix [R] with
    [R * transpose(R)] the identity and determinant 1. *)
Theorem axis_rotations_are_rotations (h : heap T) (theta : T) (cos sin : T -> T) :
  (cos theta * cos theta + sin theta * sin theta)%num = n1 ->
  (Matrix3.Static.rotX theta cos sin h
   = Some (length h, h ++ [rotX_of (cos theta) (sin theta)])
   /\ rotation (rotX_of (cos theta) (sin theta)))
  /\ (Matrix3.Static.rotY theta cos sin h
      = Some (length h, h ++ [rotY_of (cos theta) (sin theta)])
      /\ rotation (rotY_of (cos theta) (sin theta)))
  /\ (Matrix3.Static.rotZ theta cos sin h
      = Some (length h, h ++ [rotZ_of (cos theta) (sin theta)])
      /\ rotation (rotZ_of (cos theta) (sin theta))).
Proof.
  generalize (Matrix3_new_spec h). unfold Matrix3.Static.rotX, Matrix3.Static.rotY,
    Matrix3.Static.rotZ, rotX_of, rotY_of, rotZ_of. cbv zeta.
  generalize (cos theta) (sin theta). intros c s Hnew Hcs.
  assert (Hs : (s * s)%num = (n1 - c * c)%num) by (rewrite <- Hcs; ring).
  repeat split; try apply Hnew.
  all: unfold orthogonal, transpose; entries; cbv zeta.
  all: try (each_entry ltac:(ring [Hs])).
  all: ring [Hs].
Qed.

(** X20.  In exact arithmetic, for a unit axis [u] and [cos], [sin] with
    [cos(theta)^2 + sin(theta)^2 = 1], [Matrix3.rot(u, theta)] returns a
    rotation (orthogonal, determinant 1) that fixes its axis: applied to
    [u] it gives [u]. *)
Theorem rot_about_unit_axis (h : heap T) u U (theta : T) (cos sin : T -> T) :
  h !! u = Some U -> is_Vector3 U -> unit_vector U ->
  (cos theta * cos theta + sin theta * sin theta)%num = n1 ->
  Matrix3.Static.rot u theta cos sin h
  = Some (length h, h ++ [rot_of U (cos theta) (sin theta)])
  /\ rotation (rot_of U (cos theta) (sin theta))
  /\ at_of (rot_of U (cos theta) (sin theta)) U = U.
Proof.
  intros HU LU HU1 Hcs. split; [apply rot_run; exact HU|].
  clear HU. revert HU1 Hcs. unfold unit_vector.
  generalize (cos theta) (sin theta). intros c s.
  destruct U as [|x [|y [|z [|? ?]]]]; try discriminate LU.
  cbn [elem default from_option id lookup list_lookup]. intros HU1 Hcs.
  assert (Hs : (s * s)%num = (n1 - c * c)%num) by (rewrite <- Hcs; ring).
  assert (Hz : (z * z)%num = (n1 - x * x - y * y)%num) by (rewrite <- HU1; ring).
  unfold rotation, orthogonal, rot_of, transpose, at_of. entries. cbv zeta.
  split; [split|].
  - each_entry ltac:(ring [Hs Hz]).
  - ring [Hs Hz].
  - each_entry ltac:(ring [Hs Hz]).
Qed.

Lemma dist2_of_zeros (A : list T) :
  is_Matrix3 A -> dist2_of A (mat3 n0 n0 n0 n0 n0 n0 n0 n0 n0) = dot_of A A.
Proof.
  intros LA. mat9 A LA. unfold dist2_of, dot_of, mat3.
  cbn [elem default from_option id lookup list_lookup]. ring.
Qed.

(** X21.  In exact arithmetic, inverting a regular matrix twice restores
    it: [M.inv().inv()] returns [M] with every entry as it was, and the
    determinant of the inverse is the inverse of the determinant. *)
Theorem inv_twice_restores (h : heap T) this A :
  h !! this = Some A -> is_Matrix3 A -> det_of A <> n0 ->
  inv_twice this h = Some (Some this, h)
  /\ Matrix3.inv this h = Some (Some this, <[this := inv_of A]> h)
  /\ (det_of (inv_of A) * det_of A)%num = n1.
Proof.
  intros HA LA Hd.
  assert (R1 : Matrix3.inv this h = Some (Some this, <[this := inv_of A]> h)).
  { apply Matrix3_inv_spec_regular; [exact HA | exact LA |].
    apply falsy_exact_false, Hd. }
  split; [|split; [exact R1 | apply det_of_inv, Hd]].
  unfold inv_twice. eapply bind_run; [exact R1|].
  eapply bind_run; [reflexivity|].
  rewrite (Matrix3_inv_spec_regular _ this (inv_of A)); [|find | reflexivity |].
  - rewrite list_insert_insert_eq, inv_of_inv, list_insert_id by assumption. reflexivity.
  - apply falsy_exact_false, det_of_inv_regular, Hd.
Qed.

(** X22.  In exact arithmetic the elementwise operations undo each other
    in place: [M.add(N).sub(N)], [M.mul(s).div(s)] for [s <> 0] and
    [M.neg().neg()] leave every entry of [M] as it was, for [N] another
    object than [M].  When [N] is [M] itself the first does not:
    [M.add(M).sub(M)] leaves the zero matrix, since [sub] then subtracts the
    doubled matrix from itself. *)
Theorem elementwise_round_trips (h : heap T) this m A B (s : T) :
  h !! this = Some A -> h !! m = Some B -> is_Matrix3 A -> this <> m -> s <> n0 ->
  add_sub this m h = Some (this, h)
  /\ mul_div this s h = Some (this, h)
  /\ neg_neg this h = Some (this, h)
  /\ mutates_to (add_sub this this) this (fill_of n0) h.
Proof.
  intros HA HB LA Hne Hs.
  assert (Hthis : this < length h) by (eapply lookup_lt_Some; exact HA).
  split; [|split; [|split]].
  - unfold add_sub. eapply bind_run; [apply Matrix3_add_spec; eassumption|].
    rewrite (Matrix3_sub_spec _ this m (add_of A B) B); [|find|find|reflexivity].
    rewrite list_insert_insert_eq. f_equal. f_equal.
    rewrite <- (list_insert_id h this A HA) at 2. f_equal.
    mat9 A LA. unfold sub_of, add_of, tab9.
    cbn [elem default from_option id lookup list_lookup].
    each_entry ltac:(ring).
  - unfold mul_div. eapply bind_run; [apply Matrix3_mul_spec; eassumption|].
    rewrite (Matrix3_div_spec _ this (mul_of A s) s); [|find|reflexivity].
    rewrite list_insert_insert_eq. f_equal. f_equal.
    rewrite <- (list_insert_id h this A HA) at 2. f_equal.
    mat9 A LA. unfold div_of, mul_of, tab9.
    cbn [elem default from_option id lookup list_lookup].
    each_entry ltac:(field; exact Hs).
  - unfold neg_neg. eapply bind_run; [apply Matrix3_neg_spec; eassumption|].
    rewrite (Matrix3_neg_spec _ this (neg_of A)); [|find|reflexivity].
    rewrite list_insert_insert_eq. f_equal. f_equal.
    rewrite <- (list_insert_id h this A HA) at 2. f_equal.
    mat9 A LA. unfold neg_of, tab9.
    cbn [elem default from_option id lookup list_lookup].
    each_entry ltac:(ring).
  - apply (mutates_to_insert _ h this A); [exact HA|].
    unfold add_sub. eapply bind_run; [apply Matrix3_add_spec; eassumption|].
    rewrite (Matrix3_sub_spec _ this this (add_of A A) (add_of A A));
      [|find|find|reflexivity].
    rewrite list_insert_insert_eq. f_equal. f_equal. f_equal.
    unfold sub_of, add_of, fill_of, tab9.
    cbn [elem default from_option id lookup list_lookup].
    each_entry ltac:(ring).
Qed.

(** X23.  In exact arithmetic [lerp] interpolates between its ends:
    [M.lerp(N, 0)] leaves [M] as it was, [M.lerp(N, 1)] leaves in [M] the
    entries of [N], and [M.lerpc(N, 1)] is a new matrix with the entries of
    [N], [M] unchanged. *)
Theorem lerp_endpoints (h : heap T) this m A B :
  h !! this = Some A -> h !! m = Some B -> is_Matrix3 A -> is_Matrix3 B ->
  Matrix3.lerp this m n0 h = Some (this, h)
  /\ mutates_to (Matrix3.lerp this m n1) this B h
  /\ copies_to (Matrix3.lerpc this m n1) this A B h.
Proof.
  intros HA HB LA LB.
  assert (E0 : lerp_of A B n0 = A).
  { mat9 A LA. unfold lerp_of, tab9. cbn [elem default from_option id lookup list_lookup].
    each_entry ltac:(ring). }
  assert (E1 : lerp_of A B n1 = B).
  { mat9 B LB. unfold lerp_of, tab9. cbn [elem default from_option id lookup list_lookup].
    each_entry ltac:(ring). }
  split; [|split].
  - rewrite (Matrix3_lerp_spec h this m A B) by assumption.
    rewrite E0, list_insert_id by exact HA. reflexivity.
  - apply (mutates_to_insert _ h this A); [exact HA|].
    rewrite <- E1. apply Matrix3_lerp_spec; assumption.
  - apply copies_to_app; [exact HA|]. rewrite <- E1.
    apply lerpc_spec; assumption.
Qed.

(** X24.  In exact arithmetic applying a product is applying the factors
    in turn: [A.prodc(B).at(u)] and [A.at(B.at(u))] leave the same vector
    in [u], the product of the matrix [A * B] and the old [u]; [A] and [B]
    are unchanged. *)
Theorem at_composes_with_prod (h : heap T) this m u A B U :
  h !! this = Some A -> h !! m = Some B -> h !! u = Some U ->
  is_Matrix3 A -> is_Vector3 U -> this <> u -> m <> u ->
  prodc_at this m u h
  = Some (u, <[u := at_of (matmul A B) U]> (h ++ [matmul A B]))
  /\ at_at this m u h = Some (u, <[u := at_of (matmul A B) U]> h).
Proof.
  intros HA HB HU LA LU Hau Hmu.
  assert (Hu : u < length h) by (eapply lookup_lt_Some; exact HU).
  split.
  - unfold prodc_at. eapply bind_run; [apply prodc_spec; eassumption|].
    rewrite (at_run _ (length h) u (prod_of A B) U); [|find | find | exact LU | lia].
    rewrite prod_of_matmul. reflexivity.
  - unfold at_at. eapply bind_run; [apply at_run; eassumption|].
    rewrite (at_run _ this u A (at_of B U)); [|find | find | reflexivity | exact Hau].
    rewrite list_insert_insert_eq, at_of_matmul. reflexivity.
Qed.

(** X25.  In exact arithmetic [prod] is associative: [A.prodc(B).prod(C)]
    and [A.prodc(B.prodc(C))] are new matrices with the same 9 entries,
    and [A], [B], [C] are unchanged. *)
Theorem prod_is_associative (h : heap T) this m n A B C :
  h !! this = Some A -> h !! m = Some B -> h !! n = Some C ->
  is_Matrix3 A -> is_Matrix3 B ->
  prod_left this m n h = Some (length h, h ++ [matmul (matmul A B) C])
  /\ prod_right this m n h
     = Some (S (length h), h ++ [matmul B C; matmul (matmul A B) C]).
Proof.
  intros HA HB HC LA LB. split.
  - unfold prod_left. eapply bind_run; [apply prodc_spec; eassumption|].
    rewrite (Matrix3_prod_spec _ (length h) n (prod_of A B) C);
      [| find | find | reflexivity].
    rewrite insert_last, !prod_of_matmul. reflexivity.
  - unfold prod_right. eapply bind_run; [apply prodc_spec; eassumption|].
    rewrite (prodc_spec _ this (length h) A (prod_of B C)); [| find | find | exact LA].
    rewrite !prod_of_matmul, matmul_assoc, <- app_assoc, length_app.
    cbn [length app]. rewrite Nat.add_1_r. reflexivity.
Qed.

(** X26.  In exact arithmetic, for a regular matrix [M] and [n >= 0],
    [M.pow(-n)] leaves in [M] the [n]-fold product of the inverse of [M],
    and it inverts [M.pow(n)]: [M.powc(-n).prod(M.powc(n))] holds the
    entries of the identity, as [M.powc(-n + n)] does, [M] unchanged. *)
Theorem negative_powers_invert (h : heap T) this A n :
  h !! this = Some A -> is_Matrix3 A -> det_of A <> n0 -> (0 <= n)%Z ->
  (exists h', Matrix3.pow this (- n) h = Some (this, h')
     /\ h' !! this = Some (mpow (inv_of A) (Z.to_nat n)))
  /\ matmul (pow_of A (- n)) (pow_of A n) = identity
  /\ exists r s h', pow_sum this (- n) n h = Some ((r, s), h')
       /\ h' !! r = Some identity /\ h' !! s = Some identity
       /\ h' !! this = Some A.
Proof.
  intros HA LA Hd Hn.
  assert (E1 : pow_of A (- n) = mpow (inv_of A) (Z.to_nat n)).
  { destruct (Z.eq_dec n 0%Z) as [->|Hnz]; [reflexivity|].
    apply pow_of_negative; [exact LA | exact Hd | lia]. }
  assert (E2 : matmul (pow_of A (- n)) (pow_of A n) = identity).
  { rewrite E1, pow_of_mpow by assumption. apply mpow_inverse; assumption. }
  split; [|split; [exact E2|]].
  - destruct (Matrix3_pow_spec h this A (- n) HA LA) as (h' & R & Hr & _).
    exists h'. rewrite <- E1. split; assumption.
  - destruct (pow_sum_spec h this A (- n) n HA LA) as (r & s & h' & R & Hr & Hs & Ht).
    exists r, s, h'. split; [exact R|]. split; [|split; [|exact Ht]].
    + rewrite Hr, prod_of_matmul, E2. reflexivity.
    + rewrite Hs. replace (- n + n)%Z with 0%Z by lia. reflexivity.
Qed.

End ExactLaws.

Section Zero.
Context {T : Type} `{Number T} `{Algebra T}.

(** X27.  [M.zero()] tests the sum of the squared entries against the
    tolerance and changes nothing: in any arithmetic it returns what
    [M.dot(M) < epsilon2] gives, and in exact arithmetic it answers as
    [M.equal(Matrix3.zeros)] does. *)
Theorem zero_agrees (h : heap T) this A :
  h !! this = Some A -> is_Matrix3 A ->
  Matrix3.zero this h = Some ((dot_of A A <? epsilon2)%num, h)
  /\ dot_self_small this h = Matrix3.zero this h
  /\ (ExactNumber T ->
        result (equal_zeros this) h = result (Matrix3.zero this) h).
Proof.
  intros HA LA.
  pose proof (zero_run h this A HA) as Z.
  split; [exact Z|]. split.
  - rewrite Z. unfold dot_self_small.
    eapply bind_run; [apply dot_run; eassumption|]. reflexivity.
  - intros Exact. rewrite (result_run _ _ _ _ Z). unfold equal_zeros.
    eapply result_run. eapply bind_run; [apply Matrix3_new_spec|].
    rewrite (Matrix3_equal_spec _ this (length h) A (mat3 n0 n0 n0 n0 n0 n0 n0 n0 n0));
      [|find|find].
    unfold equal_of. rewrite dist2_of_zeros by exact LA. reflexivity.
Qed.

End Zero.

(** *** NaN on binary64 *)

Lemma float_is_nan (x : float) : is_nan x = true -> x = nan.
Proof.
  unfold is_nan. rewrite FloatAxioms.eqb_spec. intros E. apply Prim2SF_inj.
  change (Prim2SF nan) with S754_nan.
  destruct (Prim2SF x) as [s|s| |s m e]; try reflexivity; exfalso;
    unfold SFeqb, SFcompare in E.
  - destruct s; discriminate E.
  - destruct s; discriminate E.
  - change (PosDef.Pos.compare_cont Eq m m) with (Pos.compare m m) in E.
    destruct s; rewrite Z.compare_refl, Pos.compare_refl in E; discriminate E.
Qed.

Lemma float_nan_sub_l (y : float) : (nan - y)%num = nan.
Proof. apply Prim2SF_inj. cbn. rewrite FloatAxioms.sub_spec. reflexivity. Qed.

Lemma float_nan_sub_r (x : float) : (x - nan)%num = nan.
Proof.
  apply Prim2SF_inj. cbn. rewrite FloatAxioms.sub_spec.
  change (Prim2SF nan) with S754_nan.
  destruct (Prim2SF x) as [s|s| |s m e]; reflexivity.
Qed.

Lemma float_nan_mul (y : float) : (nan * y)%num = nan.
Proof. apply Prim2SF_inj. cbn. rewrite FloatAxioms.mul_spec. reflexivity. Qed.

Lemma float_nan_add_l (y : float) : (nan + y)%num = nan.
Proof. apply Prim2SF_inj. cbn. rewrite FloatAxioms.add_spec. reflexivity. Qed.

Lemma float_nan_add_r (x : float) : (x + nan)%num = nan.
Proof.
  apply Prim2SF_inj. cbn. rewrite FloatAxioms.add_spec.
  change (Prim2SF nan) with S754_nan.
  destruct (Prim2SF x) as [s|s| |s m e]; reflexivity.
Qed.

Lemma float_nan_lt (x : float) : (nan <? x)%num = false.
Proof. apply float_lt_nan. Qed.

(** NaN absorbs every sum, difference and product it enters. *)
Ltac nan_spreads :=
  repeat first [ rewrite float_nan_sub_l | rewrite float_nan_sub_r
               | rewrite float_nan_mul | rewrite float_nan_add_l
               | rewrite float_nan_add_r ].

Section NaN.
Context `{Algebra float}.

Lemma dist2_of_nan (A B : list float) k :
  k < 9 -> is_nan (elem A k) = true ->
  dist2_of A B = nan /\ dist2_of B A = nan /\ dot_of A A = nan.
Proof.
  intros Hk E. apply float_is_nan in E. unfold dist2_of, dot_of.
  do 9 (destruct k as [|k]; [rewrite !E; nan_spreads; repeat split; reflexivity|]).
  lia.
Qed.

(** X28.  On binary64, a matrix with a [NaN] among its 9 entries equals
    nothing, itself included, whatever the tolerance: [M.equal(N)],
    [N.equal(M)] and [M.equal(M)] return [false], and so does [M.zero()].
    Nothing is changed by the calls. *)
Theorem nan_is_never_equal (h : heap float) this m A B k :
  h !! this = Some A -> h !! m = Some B ->
  k < 9 -> is_nan (elem A k) = true ->
  Matrix3.equal this m h = Some (false, h)
  /\ Matrix3.equal m this h = Some (false, h)
  /\ Matrix3.equal this this h = Some (false, h)
  /\ Matrix3.zero this h = Some (false, h).
Proof.
  intros HA HB Hk E.
  destruct (dist2_of_nan A B k Hk E) as (E1 & E2 & E3).
  destruct (dist2_of_nan A A k Hk E) as (E4 & _ & _).
  repeat split.
  - rewrite (Matrix3_equal_spec h this m A B) by assumption.
    unfold equal_of. rewrite E1, float_nan_lt. reflexivity.
  - rewrite (Matrix3_equal_spec h m this B A) by assumption.
    unfold equal_of. rewrite E2, float_nan_lt. reflexivity.
  - rewrite (Matrix3_equal_spec h this this A A) by assumption.
    unfold equal_of. rewrite E4, float_nan_lt. reflexivity.
  - rewrite (zero_run h this A HA), E3, float_nan_lt. reflexivity.
Qed.

End NaN.

(** *** The properties at work on concrete inputs *)

Lemma cos35_sin45 :
  (Inputs.cos35 * Inputs.cos35 + Inputs.sin45 * Inputs.sin45)%num = n1.
Proof. apply Qc_is_canon. reflexivity. Qed.

Lemma axis122_unit : unit_vector Inputs.axis122.
Proof. apply Qc_is_canon. reflexivity. Qed.

Lemma two_nonzero : Q2Qc 2 <> n0.
Proof. intros E. apply (f_equal Qcanon.this) in E. discriminate E. Qed.

(** X1 at work: rows [(10, 20, 30)], [(40, 50, 60)], [(70, 80, 90)] written
    into [rows123] are read back as they were written. *)
Lemma xyz_roundtrip_witness :
  result (set_get_xyz 0 [1; 2; 3]) Inputs.matrix_and_vectors
  = Some [Inputs.v123; Inputs.v456; Inputs.v789].
Proof.
  exact (proj1 (xyz_roundtrip Inputs.matrix_and_vectors 0 Samples.rows123 1 2 3
                  Inputs.v123 Inputs.v456 Inputs.v789
                  eq_refl eq_refl eq_refl eq_refl eq_refl eq_refl eq_refl eq_refl
                  ltac:(discriminate) ltac:(discriminate) ltac:(discriminate))).
Defined.

(** X2 at work: the same three vectors written and read back as columns. *)
Lemma xyzt_roundtrip_witness :
  result (set_get_xyzt 0 [1; 2; 3]) Inputs.matrix_and_vectors
  = Some [Inputs.v123; Inputs.v456; Inputs.v789].
Proof.
  exact (proj1 (xyzt_roundtrip Inputs.matrix_and_vectors 0 Samples.rows123 1 2 3
                  Inputs.v123 Inputs.v456 Inputs.v789
                  eq_refl eq_refl eq_refl eq_refl eq_refl eq_refl eq_refl eq_refl
                  ltac:(discriminate) ltac:(discriminate) ltac:(discriminate))).
Defined.

(** X3 at work: the three vectors as rows, or as columns then transposed. *)
Lemma rows_are_transposed_columns_witness :
  set_xyz_this 0 [1; 2; 3] Inputs.matrix_and_vectors
  = set_xyzt_trans 0 [1; 2; 3] Inputs.matrix_and_vectors.
Proof.
  exact (proj1 (rows_are_transposed_columns Inputs.matrix_and_vectors 0
                  Samples.rows123 1 2 3 Inputs.v123 Inputs.v456 Inputs.v789
                  eq_refl eq_refl eq_refl eq_refl eq_refl
                  ltac:(discriminate) ltac:(discriminate) ltac:(discriminate))).
Defined.

(** X4 at work: [rows123.trans().trans()] *)
Lemma trans_twice_restores_witness :
  trans_twice 0 [Samples.rows123] = Some (0, [Samples.rows123]).
Proof.
  exact (proj1 (trans_twice_restores [Samples.rows123] 0 Samples.rows123
                  eq_refl eq_refl)).
Defined.

(** X5 at work: [rows123.row(1)] is [[4, 5, 6]]. *)
Lemma row_col_bounds_witness :
  Matrix3.row 0 1 [Samples.rows123]
  = Some ([Some 4; Some 5; Some 6]%float, [Samples.rows123]).
Proof.
  exact (proj1 (proj1 (row_col_bounds [Samples.rows123] 0 Samples.rows123 1
                         eq_refl eq_refl) ltac:(lia))).
Defined.

(** X8 at work: the outer product of [(10, 20, 30)] and [(40, 50, 60)]. *)
Lemma tensor_is_outer_product_witness :
  transpose (tensor_of Inputs.v123 Inputs.v456) = tensor_of Inputs.v456 Inputs.v123.
Proof.
  exact (proj1 (proj2 (proj2 (proj2
           (tensor_is_outer_product [Inputs.v123; Inputs.v456] 0 1
              Inputs.v123 Inputs.v456 eq_refl eq_refl))))).
Defined.

(** X9 at work: [diag248.atc(v123)] is a new vector, [(20, 80, 240)]. *)
Lemma atc_copies_witness :
  Matrix3.atc 0 1 [Samples.diag248; Inputs.v123]
  = Some (2, [Samples.diag248; Inputs.v123; at_of Samples.diag248 Inputs.v123]).
Proof.
  exact (proj2 (atc_copies [Samples.diag248; Inputs.v123] 0 1 Samples.diag248
                  Inputs.v123 eq_refl eq_refl eq_refl ltac:(discriminate))).
Defined.

(** X10 at work: [Matrix3.affine(diag248, v456, v123)] *)
Lemma affine_is_at_then_translate_witness :
  Matrix3.Static.affine 0 2 1 [Samples.diag248; Inputs.v123; Inputs.v456]
  = Some (1, [Samples.diag248;
              translate_of (at_of Samples.diag248 Inputs.v123) Inputs.v456;
              Inputs.v456]).
Proof.
  exact (proj1 (affine_is_at_then_translate
                  [Samples.diag248; Inputs.v123; Inputs.v456] 0 2 1
                  Samples.diag248 Inputs.v456 Inputs.v123
                  eq_refl eq_refl eq_refl eq_refl ltac:(discriminate))).
Defined.

(** X11 at work: [rows123.prod(diag248).trans()] *)
Lemma transpose_of_product_witness :
  mutates_to (prod_trans 0 1) 0 (transpose (matmul Samples.rows123 Samples.diag248))
    [Samples.rows123; Samples.diag248].
Proof.
  exact (proj1 (transpose_of_product [Samples.rows123; Samples.diag248] 0 1
                  Samples.rows123 Samples.diag248 eq_refl eq_refl eq_refl eq_refl)).
Defined.

(** X12 at work: [diag248.dot(rows123)] is [rows123.dot(diag248)]. *)
Lemma dot_is_symmetric_witness :
  Matrix3.dot 1 0 [Samples.rows123; Samples.diag248]
  = Matrix3.dot 0 1 [Samples.rows123; Samples.diag248].
Proof.
  exact (proj2 (dot_is_symmetric [Samples.rows123; Samples.diag248] 0 1
                  Samples.rows123 Samples.diag248 eq_refl eq_refl)).
Defined.

(** X13 at work: [rows123] rebuilt from its rows. *)
Lemma array2_of_rows_rebuilds_witness :
  copies_to (rows_array2 0) 0 Samples.rows123 Samples.rows123 [Samples.rows123].
Proof.
  exact (proj1 (array2_of_rows_rebuilds [Samples.rows123] 0 Samples.rows123
                  eq_refl eq_refl)).
Defined.

(** X14 at work: [Matrix3.xyz(rows123.xyz)] *)
Lemma xyz_of_rows_rebuilds_witness :
  copies_to (xyz_rebuild 0) 0 Samples.rows123 Samples.rows123 [Samples.rows123].
Proof.
  exact (proj1 (xyz_of_rows_rebuilds [Samples.rows123] 0 Samples.rows123
                  eq_refl eq_refl)).
Defined.

(** X15 at work: [rows123.copy(diag248)] *)
Lemma copy_overwrites_witness :
  mutates_to (Matrix3.copy 0 1) 0 Samples.diag248 [Samples.rows123; Samples.diag248].
Proof.
  exact (proj1 (copy_overwrites (H0 := Samples.float_Algebra)
                  [Samples.rows123; Samples.diag248] 0 1
                  Samples.rows123 Samples.diag248 eq_refl eq_refl eq_refl eq_refl)).
Defined.

(** X16 at work: [rows123.reset1()] leaves the identity. *)
Lemma resets_match_generators_witness :
  mutates_to (Matrix3.reset1 0) 0 identity [Samples.rows123].
Proof.
  exact (proj1 (proj2 (resets_match_generators [Samples.rows123] 0 Samples.rows123
                         eq_refl eq_refl))).
Defined.

(** X17 at work: the determinant of [shear * shear], on the rationals. *)
Lemma det_is_multiplicative_witness :
  det_prod 0 0 [Samples.shear]
  = Some ((det_of Samples.shear * det_of Samples.shear)%num,
          [Samples.shear; prod_of Samples.shear Samples.shear]).
Proof.
  exact (proj1 (det_is_multiplicative [Samples.shear] 0 0 Samples.shear Samples.shear
                  eq_refl eq_refl eq_refl)).
Defined.

(** X18 at work: [shear.prod(Matrix3.eye)] *)
Lemma eye_is_neutral_witness :
  prod_eye 0 [Samples.shear] = Some (0, [Samples.shear; identity]).
Proof.
  exact (proj1 (eye_is_neutral [Samples.shear] 0 Samples.shear eq_refl eq_refl)).
Defined.

(** X19 at work: [rotX] with cosine [3/5] and sine [4/5]. *)
Lemma axis_rotations_are_rotations_witness :
  rotation (rotX_of Inputs.cos35 Inputs.sin45).
Proof.
  exact (proj2 (proj1 (axis_rotations_are_rotations [] 0%Qc
                         (fun _ => Inputs.cos35) (fun _ => Inputs.sin45)
                         cos35_sin45))).
Defined.

(** X20 at work: the rotation about [(1/3, 2/3, 2/3)] with cosine [3/5]
    and sine [4/5] fixes its axis. *)
Lemma rot_about_unit_axis_witness :
  at_of (rot_of Inputs.axis122 Inputs.cos35 Inputs.sin45) Inputs.axis122
  = Inputs.axis122.
Proof.
  exact (proj2 (proj2 (rot_about_unit_axis [Inputs.axis122] 0 Inputs.axis122 0%Qc
                         (fun _ => Inputs.cos35) (fun _ => Inputs.sin45)
                         eq_refl eq_refl axis122_unit cos35_sin45))).
Defined.

(** X21 at work: [shear.inv().inv()] *)
Lemma inv_twice_restores_witness :
  inv_twice 0 [Samples.shear] = Some (Some 0, [Samples.shear]).
Proof.
  exact (proj1 (inv_twice_restores [Samples.shear] 0 Samples.shear
                  eq_refl eq_refl shear_regular)).
Defined.

(** X22 at work: [shear.add(eye).sub(eye)], with [eye] the second object. *)
Lemma elementwise_round_trips_witness :
  add_sub 0 1 [Samples.shear; identity] = Some (0, [Samples.shear; identity]).
Proof.
  exact (proj1 (elementwise_round_trips [Samples.shear; identity] 0 1
                  Samples.shear identity (Q2Qc 2)
                  eq_refl eq_refl eq_refl ltac:(discriminate) two_nonzero)).
Defined.

(** X23 at work: [shear.lerp(eye, 1)] leaves the identity in [shear]. *)
Lemma lerp_endpoints_witness :
  mutates_to (Matrix3.lerp 0 1 n1) 0 identity [Samples.shear; identity].
Proof.
  exact (proj1 (proj2 (lerp_endpoints [Samples.shear; identity] 0 1
                         Samples.shear identity eq_refl eq_refl eq_refl eq_refl))).
Defined.

(** X24 at work: [shear.at(shear.at(q123))] *)
Lemma at_composes_with_prod_witness :
  at_at 0 0 1 [Samples.shear; Inputs.q123]
  = Some (1, [Samples.shear;
              at_of (matmul Samples.shear Samples.shear) Inputs.q123]).
Proof.
  exact (proj2 (at_composes_with_prod [Samples.shear; Inputs.q123] 0 0 1
                  Samples.shear Samples.shear Inputs.q123
                  eq_refl eq_refl eq_refl eq_refl eq_refl
                  ltac:(discriminate) ltac:(discriminate))).
Defined.

(** X25 at work: [shear.prodc(shear).prod(shear)] *)
Lemma prod_is_associative_witness :
  prod_left 0 0 0 [Samples.shear]
  = Some (1, [Samples.shear;
              matmul (matmul Samples.shear Samples.shear) Samples.shear]).
Proof.
  exact (proj1 (prod_is_associative [Samples.shear] 0 0 0
                  Samples.shear Samples.shear Samples.shear
                  eq_refl eq_refl eq_refl eq_refl eq_refl)).
Defined.

(** X26 at work: [shear.pow(-3)] times [shear.pow(3)] is the identity. *)
Lemma negative_powers_invert_witness :
  matmul (pow_of Samples.shear (- 3)) (pow_of Samples.shear 3) = identity.
Proof.
  exact (proj1 (proj2 (negative_powers_invert [Samples.shear] 0 Samples.shear 3%Z
                         eq_refl eq_refl shear_regular ltac:(lia)))).
Defined.

(** X27 at work: [shear.zero()] and [shear.equal(Matrix3.zeros)] *)
Lemma zero_agrees_witness :
  result (equal_zeros (H0 := Samples.Qc_Algebra) 0) [Samples.shear]
  = result (Matrix3.zero (H0 := Samples.Qc_Algebra) 0) [Samples.shear].
Proof.
  exact (proj2 (proj2 (zero_agrees (H0 := Samples.Qc_Algebra) [Samples.shear] 0
                         Samples.shear eq_refl eq_refl)) Qc_ExactNumber).
Defined.

(** X28 at work: the identity with [NaN] in its first entry is not equal
    to itself. *)
Lemma nan_is_never_equal_witness :
  Matrix3.equal (H0 := Samples.float_Algebra) 0 0 [Inputs.with_nan]
  = Some (false, [Inputs.with_nan]).
Proof.
  exact (proj1 (proj2 (proj2 (nan_is_never_equal (H := Samples.float_Algebra)
                                [Inputs.with_nan] 0 0 Inputs.with_nan Inputs.with_nan 0
                                eq_refl eq_refl ltac:(lia) eq_refl)))).
Defined.
